(** * Notes service (src/index.js): file-backed CRUD over plain-text notes

    The service keeps no state of its own: every handler builds a path with
    [path.join(cache, name + '.txt')] and calls Node's synchronous [fs]
    functions on it.  The development below embeds
      - the part of Node's POSIX [path] module the handlers use
        ([path.join], [path.normalize], [path.parse(..).name]),
      - a file system (a finite map from paths to files and directories)
        with the [fs] calls of the handlers, including the exceptions they
        throw,
      - the five handlers of src/index.js that serve notes (POST /write,
        GET, PUT and DELETE /notes/:name, GET /notes), written in a small
        state-and-exception monad so that they read like the JavaScript.

    Scope of the model: a POSIX platform, Node 14 or later (where
    [fs.writeFileSync] rejects data that is not a string), no symbolic
    links, no permission failures, no limit on the length of a file name,
    and each [fs] call is atomic.  A text is the string a body parser
    hands to the handler; writing it as UTF-8 and reading it back as UTF-8
    gives the same string, so files hold texts as they are. *)

From Stdlib Require Import Ascii String.
From stdpp Require Import base strings list gmap fin_maps.

Local Open Scope string_scope.
Local Open Scope list_scope.

(** ** Characters and strings as JavaScript uses them here *)

Definition slash : ascii := "/"%char.
Definition dot : ascii := "."%char.
Definition underscore : ascii := "_"%char.
Definition nul : ascii := Ascii.zero.

(** [s.includes(c)] for a single character. *)
Fixpoint includes (c : ascii) (s : string) : bool :=
  match s with
  | EmptyString => false
  | String a s' => if decide (a = c) then true else includes c s'
  end.

(** [s.startsWith(c)] for a single character. *)
Definition startsWith (s : string) (c : ascii) : bool :=
  match s with
  | EmptyString => false
  | String a _ => bool_decide (a = c)
  end.

(** [s.endsWith(c)] for a single character. *)
Fixpoint endsWith (s : string) (c : ascii) : bool :=
  match s with
  | EmptyString => false
  | String a EmptyString => bool_decide (a = c)
  | String _ s' => endsWith s' c
  end.

(** [v + '.txt'] where [v] may be [undefined]: JavaScript's [+] turns
    [undefined] into the string "undefined". *)
Definition js_add (v : option string) (suffix : string) : string :=
  match v with
  | Some s => s +:+ suffix
  | None => "undefined" +:+ suffix
  end.

(** ** Node's POSIX [path] module *)

(** The pieces of a path between its separators: "a//b" gives
    ["a"; ""; "b"], "/a" gives [""; "a"] and "" gives [""]. *)
Fixpoint split_slash (s : string) : list string :=
  match s with
  | EmptyString => [""]
  | String c s' =>
      if decide (c = slash) then "" :: split_slash s'
      else match split_slash s' with
           | [] => [String c ""]
           | x :: xs => String c x :: xs
           end
  end.

Definition join_slash (segs : list string) : string := String.concat "/" segs.

(** One segment of [normalizeString]; [res] is the result so far, last
    segment first.  Empty and "." segments are dropped, ".." removes the
    last segment unless there is none or it is ".." itself, in which case
    ".." is kept for a relative path ([allowAboveRoot]) and dropped for an
    absolute one. *)
Definition normalize_step (allowAboveRoot : bool) (res : list string) (seg : string)
  : list string :=
  if decide (seg = "" ∨ seg = ".") then res
  else if decide (seg = "..") then
    match res with
    | last :: res' =>
        if decide (last = "..") then (if allowAboveRoot then ".." :: res else res)
        else res'
    | [] => if allowAboveRoot then [".."] else []
    end
  else seg :: res.

Definition normalizeString (allowAboveRoot : bool) (segs : list string) : list string :=
  rev (fold_left (normalize_step allowAboveRoot) segs []).

(** [path.posix.normalize]. *)
Definition path_normalize (p : string) : string :=
  if decide (p = "") then "."
  else
    let isAbsolute := startsWith p slash in
    let trailingSeparator := endsWith p slash in
    let res := join_slash (normalizeString (negb isAbsolute) (split_slash p)) in
    if decide (res = "") then
      (if isAbsolute then "/" else if trailingSeparator then "./" else ".")
    else
      let res := if trailingSeparator then res +:+ "/" else res in
      if isAbsolute then "/" +:+ res else res.

(** [path.posix.join] of two arguments: the non-empty arguments are glued
    with "/" and the result is normalized. *)
Definition path_join (a b : string) : string :=
  match decide (a = ""), decide (b = "") with
  | left _, left _ => "."
  | left _, right _ => path_normalize b
  | right _, left _ => path_normalize a
  | right _, right _ => path_normalize (a +:+ "/" +:+ b)
  end.

(** Index of the last [c] in [s], if any. *)
Fixpoint last_index (c : ascii) (s : string) : option nat :=
  match s with
  | EmptyString => None
  | String a s' =>
      match last_index c s' with
      | Some i => Some (S i)
      | None => if decide (a = c) then Some 0 else None
      end
  end.

Fixpoint take_string (n : nat) (s : string) : string :=
  match n, s with
  | S n', String a s' => String a (take_string n' s')
  | _, _ => ""
  end.

(** [path.posix.parse(file).name] for a [file] without separator, which is
    what [readdirSync] yields: the part before the last dot, except that a
    name without a dot, a name whose last dot is its first character, and
    ".." have no extension. *)
Definition path_parse_name (file : string) : string :=
  match last_index dot file with
  | None => file
  | Some 0 => file
  | Some startDot => if decide (file = "..") then file else take_string startDot file
  end.

(** ** The file system *)

(** A [key] names an entry by its components, the entry's own name first
    and the root last: /srv/cache/a.txt is ["a.txt"; "cache"; "srv"], the
    root directory is [[]].  [at_path] writes a key root first. *)
Abbreviation key := (list string).

Definition at_path (components : list string) : key := rev components.

Inductive node : Type :=
  | File (data : string)
  | Dir.

#[global] Instance node_eq_dec : EqDecision node.
Proof. solve_decision. Defined.

Inductive error : Type :=
  | ERR_INVALID_ARG_TYPE
  | ERR_INVALID_ARG_VALUE
  | ENOENT
  | ENOTDIR
  | EISDIR.

#[global] Instance error_eq_dec : EqDecision error.
Proof. solve_decision. Defined.

Inductive result (A : Type) : Type :=
  | Ok (a : A)
  | Throw (e : error).
Arguments Ok {A} a.
Arguments Throw {A} e.

(** What the kernel does with one component of a path. *)
Definition walk_step (cur : key) (seg : string) : key :=
  if decide (seg = "" ∨ seg = ".") then cur
  else if decide (seg = "..") then tail cur
  else seg :: cur.

(** Path resolution: every component is looked up in a directory that has
    to exist; the entry the last component names need not exist. *)
Fixpoint walk (fs : gmap key node) (cur : key) (segs : list string) : result key :=
  match segs with
  | [] => Ok cur
  | seg :: rest =>
      match fs !! cur with
      | Some Dir => walk fs (walk_step cur seg) rest
      | Some (File _) => Throw ENOTDIR
      | None => Throw ENOENT
      end
  end.

(** The entries of directory [k], in the enumeration order of the model. *)
Definition children (fs : gmap key node) (k : key) : list string :=
  omap (λ entry : key * node,
          match entry.1 with
          | s :: parent => if decide (parent = k) then Some s else None
          | [] => None
          end) (map_to_list fs).

(** Computations over the file system that may throw. *)
Definition M (A : Type) : Type := gmap key node → result A * gmap key node.

#[global] Instance M_ret : MRet M := λ A a fs, (Ok a, fs).
#[global] Instance M_bind : MBind M := λ A B f m fs,
  match m fs with
  | (Ok a, fs') => f a fs'
  | (Throw e, fs') => (Throw e, fs')
  end.

(** [try { body } catch (err) { handler }] *)
Definition try_catch {A : Type} (body : M A) (handler : error → M A) : M A := λ fs,
  match body fs with
  | (Ok a, fs') => (Ok a, fs')
  | (Throw e, fs') => handler e fs'
  end.

Section Fs.

(** The working directory of the process, against which relative paths are
    resolved. *)
Variable cwd : key.

(** Node refuses a path with a NUL character before it reaches the kernel;
    the kernel refuses the empty path. *)
Definition resolve (fs : gmap key node) (p : string) : result key :=
  if includes nul p then Throw ERR_INVALID_ARG_VALUE
  else if decide (p = "") then Throw ENOENT
  else walk fs (if startsWith p slash then [] else cwd) (split_slash p).

(** [fs.existsSync] never throws. *)
Definition existsSync (p : string) : M bool := λ fs,
  match resolve fs p with
  | Ok k => (Ok (bool_decide (is_Some (fs !! k))), fs)
  | Throw _ => (Ok false, fs)
  end.

(** [fs.writeFileSync(p, data)]: [data] is [None] when the JavaScript value
    is not a string ([undefined], an object), which Node rejects before it
    opens the file.  The file is created or truncated. *)
Definition writeFileSync (p : string) (data : option string) : M unit := λ fs,
  match data with
  | None => (Throw ERR_INVALID_ARG_TYPE, fs)
  | Some d =>
      match resolve fs p with
      | Throw e => (Throw e, fs)
      | Ok k =>
          match fs !! k with
          | Some Dir => (Throw EISDIR, fs)
          | Some (File _) => (Ok (), <[k := File d]> fs)
          | None =>
              match k with
              | _ :: parent =>
                  match fs !! parent with
                  | Some Dir => (Ok (), <[k := File d]> fs)
                  | Some (File _) => (Throw ENOTDIR, fs)
                  | None => (Throw ENOENT, fs)
                  end
              | [] => (Throw ENOENT, fs)
              end
          end
      end
  end.

(** [fs.readFileSync(p, 'utf-8')] *)
Definition readFileSync (p : string) : M string := λ fs,
  match resolve fs p with
  | Throw e => (Throw e, fs)
  | Ok k =>
      match fs !! k with
      | Some (File d) => (Ok d, fs)
      | Some Dir => (Throw EISDIR, fs)
      | None => (Throw ENOENT, fs)
      end
  end.

(** [fs.unlinkSync(p)] *)
Definition unlinkSync (p : string) : M unit := λ fs,
  match resolve fs p with
  | Throw e => (Throw e, fs)
  | Ok k =>
      match fs !! k with
      | Some (File _) => (Ok (), delete k fs)
      | Some Dir => (Throw EISDIR, fs)
      | None => (Throw ENOENT, fs)
      end
  end.

(** [fs.readdirSync(p)] *)
Definition readdirSync (p : string) : M (list string) := λ fs,
  match resolve fs p with
  | Throw e => (Throw e, fs)
  | Ok k =>
      match fs !! k with
      | Some Dir => (Ok (children fs k), fs)
      | Some (File _) => (Throw ENOTDIR, fs)
      | None => (Throw ENOENT, fs)
      end
  end.

(** [fs.lstatSync(p).isFile()] *)
Definition lstatSync_isFile (p : string) : M bool := λ fs,
  match resolve fs p with
  | Throw e => (Throw e, fs)
  | Ok k =>
      match fs !! k with
      | Some (File _) => (Ok true, fs)
      | Some Dir => (Ok false, fs)
      | None => (Throw ENOENT, fs)
      end
  end.

End Fs.

(** ** Express: requests, responses and the handlers of src/index.js *)

(** An element of the array GET /notes answers: [{ name, text }]. *)
Record entry : Type := { name : string; text : string }.

#[global] Instance entry_eq_dec : EqDecision entry.
Proof. solve_decision. Defined.

Inductive body : Type :=
  | Text (s : string)
  | Json (notes : list entry)
  | ErrorPage (e : error).

Record response : Type := { status : Z; payload : body }.

(** [res.status(code).send(s)] *)
Definition res_status_send (code : Z) (s : string) : M response :=
  mret {| status := code; payload := Text s |}.

(** [res.send(s)] *)
Definition res_send (s : string) : M response := res_status_send 200 s.

(** [res.sendStatus(404)]: the body is the status text. *)
Definition res_sendStatus_404 : M response := res_status_send 404 "Not Found".

(** [res.json(notes)] *)
Definition res_json (notes : list entry) : M response :=
  mret {| status := 200; payload := Json notes |}.

(** An exception that leaves a handler reaches Express's default error
    handler, which answers 500. *)
Definition serve (handler : M response) (fs : gmap key node)
  : response * gmap key node :=
  match handler fs with
  | (Ok r, fs') => (r, fs')
  | (Throw e, fs') => ({| status := 500; payload := ErrorPage e |}, fs')
  end.

(** [req.body] of POST /write: each form field is a string or absent. *)
Record write_form : Type := { note_name : option string; note : option string }.

Section Handlers.

Variable cwd : key.
(** The [--cache] option. *)
Variable cache : string.

(** [app.post('/write', ...)] *)
Definition post_write (req_body : write_form) : M response :=
  let filePath := path_join cache (js_add (note_name req_body) ".txt") in
  found ← existsSync cwd filePath;
  if (found : bool) then res_status_send 400 "Note already exists"
  else
    writeFileSync cwd filePath (note req_body);;
    res_status_send 201 "Note created".

(** [app.get('/notes/:name', ...)] *)
Definition get_note (req_params_name : string) : M response :=
  let filePath := path_join cache (req_params_name +:+ ".txt") in
  found ← existsSync cwd filePath;
  if negb found then res_sendStatus_404
  else
    data ← readFileSync cwd filePath;
    res_send data.

(** [app.put('/notes/:name', express.text(), ...)]: [req_body] is [None]
    when the body parser left something that is not a string. *)
Definition put_note (req_params_name : string) (req_body : option string) : M response :=
  let filePath := path_join cache (req_params_name +:+ ".txt") in
  found ← existsSync cwd filePath;
  if negb found then res_sendStatus_404
  else
    writeFileSync cwd filePath req_body;;
    res_send "Note updated".

(** [app.delete('/notes/:name', ...)] *)
Definition delete_note (req_params_name : string) : M response :=
  let filePath := path_join cache (req_params_name +:+ ".txt") in
  found ← existsSync cwd filePath;
  if negb found then res_sendStatus_404
  else
    unlinkSync cwd filePath;;
    res_send "Note deleted".

(** The [for (const file of files)] loop of GET /notes. *)
Fixpoint notes_loop (files : list string) (notes : list entry) : M (list entry) :=
  match files with
  | [] => mret notes
  | file :: rest =>
      let filePath := path_join cache file in
      isFile ← lstatSync_isFile cwd filePath;
      if (isFile : bool) && negb (startsWith file dot) && negb (startsWith file underscore)
      then
        let name := path_parse_name file in
        text ← readFileSync cwd filePath;
        notes_loop rest (notes ++ [{| name := name; text := text |}])
      else notes_loop rest notes
  end.

(** [app.get('/notes', ...)] *)
Definition get_notes : M response :=
  try_catch
    (files ← readdirSync cwd cache;
     notes ← notes_loop files [];
     res_json notes)
    (λ err, res_status_send 500 "Internal Server Error").

End Handlers.

(** ** Notions the statements use *)

(** A segment that names an entry: not empty, not "." or "..", no separator. *)
Definition is_name (f : string) : bool :=
  bool_decide (f ≠ "" ∧ f ≠ "." ∧ f ≠ "..") && negb (includes slash f).

(** A name the kernel can store: additionally without NUL. *)
Definition is_component (f : string) : bool := is_name f && negb (includes nul f).

(** A note name that stays one path segment: no separator, no NUL. *)
Definition valid_name (n : string) : bool :=
  negb (includes slash n) && negb (includes nul n).

(** The stack of [normalizeString] holds no "" and no "."; for an absolute
    path it holds no ".." either. *)
Definition norm_inv (allow : bool) (acc : list string) : Prop :=
  Forall (λ s, s ≠ "" ∧ s ≠ "." ∧ (allow = false → s ≠ "..")) acc.

(** Where the resolution of [p] starts: at the root for an absolute path,
    at the working directory otherwise. *)
Definition start_of (cwd : key) (p : string) : key :=
  if startsWith p slash then [] else cwd.

(** Path resolution only looks at directories, so it is the same in two
    file systems with the same directories. *)
Definition dirs_agree (fs fs' : gmap key node) : Prop :=
  ∀ k, fs !! k = Some Dir ↔ fs' !! k = Some Dir.

(** The responses: a text with a status, the answer of
    [res.sendStatus(404)], and the answer to an uncaught exception. *)
Definition sent (code : Z) (s : string) : response := {| status := code; payload := Text s |}.
Definition not_found : response := sent 404 "Not Found".
Definition failed (e : error) : response := {| status := 500; payload := ErrorPage e |}.

(** The path every handler builds for the note [n]. *)
Definition note_path (cache : string) (n : string) : string := path_join cache (n +:+ ".txt").

(** The entry the path of note [n] names, if it names one. *)
Definition stored (cwd : key) (cache : string) (fs : gmap key node) (n : string)
  : option node :=
  match resolve cwd fs (note_path cache n) with
  | Ok k => fs !! k
  | Throw _ => None
  end.

(** The cache directory exists: [cache] resolves to the directory [K].
    The start-up code of index.js creates the directory when nothing
    exists at [cache]. *)
Definition cache_ready (cwd : key) (cache : string) (fs : gmap key node) (K : key)
  : Prop :=
  resolve cwd fs cache = Ok K ∧ fs !! K = Some Dir.

(** Every entry has a storable name and lies in a directory. *)
Definition wf (fs : gmap key node) : Prop :=
  ∀ s k, is_Some (fs !! (s :: k)) → is_component s = true ∧ fs !! k = Some Dir.

(** A check of [wf] that computes. *)
Definition entry_ok (fs : gmap key node) (k : key) : bool :=
  match k with
  | [] => true
  | s :: parent => is_component s && bool_decide (fs !! parent = Some Dir)
  end.

Definition wf_check (fs : gmap key node) : bool :=
  forallb (λ e : key * node, entry_ok fs e.1) (map_to_list fs).

(** The element GET /notes reports for the entry [file] of directory [K]. *)
Definition listed (fs : gmap key node) (K : key) (file : string) : option entry :=
  match fs !! (file :: K) with
  | Some (File d) =>
      if negb (startsWith file dot) && negb (startsWith file underscore)
      then Some {| name := path_parse_name file; text := d |}
      else None
  | _ => None
  end.

(** The only changes a handler makes: none, a new file in an existing
    directory, new contents for an existing file, or the removal of a file. *)
Inductive file_change (fs : gmap key node) (k : key) : gmap key node → Prop :=
  | change_none : file_change fs k fs
  | change_create s parent d :
      k = s :: parent → fs !! k = None → fs !! parent = Some Dir →
      file_change fs k (<[k := File d]> fs)
  | change_overwrite d0 d :
      fs !! k = Some (File d0) → file_change fs k (<[k := File d]> fs)
  | change_unlink d0 :
      fs !! k = Some (File d0) → file_change fs k (delete k fs).

(** [fs'] is [fs], or differs from it by one [file_change] at the entry
    the path [p] resolves to. *)
Definition changes_only (cwd : key) (fs fs' : gmap key node) (p : string) : Prop :=
  fs' = fs ∨ ∃ k, resolve cwd fs p = Ok k ∧ file_change fs k fs'.

(** [k] lies strictly below the directory [K]. *)
Fixpoint inside (K k : key) : bool :=
  match k with
  | [] => false
  | _ :: parent => bool_decide (parent = K) || inside K parent
  end.

(** ** The operations of the Note Store *)

(** The operations of the Note Store and the route that serves each. *)
Inductive request : Type :=
  | Create (n t : string)
  | Read (n : string)
  | Update (n t : string)
  | Delete (n : string)
  | List.

Definition handle (cwd : key) (cache : string) (req : request) : M response :=
  match req with
  | Create n t => post_write cwd cache {| note_name := Some n; note := Some t |}
  | Read n => get_note cwd cache n
  | Update n t => put_note cwd cache n (Some t)
  | Delete n => delete_note cwd cache n
  | List => get_notes cwd cache
  end.

Definition valid_request (req : request) : bool :=
  match req with
  | Create n _ | Read n | Update n _ | Delete n => valid_name n
  | List => true
  end.

(** The note name an operation is about; List is about none. *)
Definition request_name (req : request) : option string :=
  match req with
  | Create n _ | Read n | Update n _ | Delete n => Some n
  | List => None
  end.

(** The Note Store as the specification words it: a map from note names to
    texts; Create fails with AlreadyExists (400) on a present name, Update
    and Delete and Read fail with NotFound (404) on an absent one, success
    is 201 for Create and 200 otherwise. *)
Definition spec_step (req : request) (notes : gmap string string)
  : Z * gmap string string :=
  match req with
  | Create n t =>
      match notes !! n with
      | Some _ => (400%Z, notes)
      | None => (201%Z, <[n := t]> notes)
      end
  | Read n =>
      match notes !! n with
      | Some _ => (200%Z, notes)
      | None => (404%Z, notes)
      end
  | Update n t =>
      match notes !! n with
      | Some _ => (200%Z, <[n := t]> notes)
      | None => (404%Z, notes)
      end
  | Delete n =>
      match notes !! n with
      | Some _ => (200%Z, delete n notes)
      | None => (404%Z, notes)
      end
  | List => (200%Z, notes)
  end.

(** A session: the requests are served one after the other. *)
Fixpoint serve_all (cwd : key) (cache : string) (reqs : list request)
  (fs : gmap key node) : list response * gmap key node :=
  match reqs with
  | [] => ([], fs)
  | req :: rest =>
      let (r, fs1) := serve (handle cwd cache req) fs in
      let (rs, fs2) := serve_all cwd cache rest fs1 in
      (r :: rs, fs2)
  end.

Fixpoint spec_run (reqs : list request) (notes : gmap string string)
  : list Z * gmap string string :=
  match reqs with
  | [] => ([], notes)
  | req :: rest =>
      let (code, notes1) := spec_step req notes in
      let (codes, notes2) := spec_run rest notes1 in
      (code :: codes, notes2)
  end.

(** The note [n] with text [t] is the file [n].txt of the cache directory
    [K] with contents [t], and a name without note has no entry there. *)
Definition layout (K : key) (fs : gmap key node) (notes : gmap string string) : Prop :=
  ∀ n, valid_name n = true → fs !! ((n +:+ ".txt") :: K) = File <$> notes !! n.

(** [fs'] has everything [fs] has, unchanged, and besides that only new
    directories. *)
Definition only_adds_dirs (fs fs' : gmap key node) : Prop :=
  ∀ k, fs' !! k = fs !! k ∨ (fs !! k = None ∧ fs' !! k = Some Dir).

(** ** Start-up: the cache directory (index.js, lines 29-37) *)

(** [fs.mkdirSync(p, { recursive: true })] returns or throws; the handler
    of the exception only prints its message, so the error code is not
    kept. *)
Inductive mkdir_result : Type :=
  | Made
  | MkdirThrows.

(** The components of the path from left to right, below [cur]: a missing
    directory is created, an existing one is entered, a regular file in the
    way makes the call throw.  What was created before the call throws
    stays. *)
Fixpoint mkdirp (fs : gmap key node) (cur : key) (segs : list string)
  : mkdir_result * gmap key node :=
  match segs with
  | [] => (Made, fs)
  | seg :: rest =>
      if decide (seg = "" ∨ seg = "." ∨ seg = "..") then
        match fs !! walk_step cur seg with
        | Some Dir => mkdirp fs (walk_step cur seg) rest
        | _ => (MkdirThrows, fs)
        end
      else
        match fs !! (seg :: cur) with
        | Some Dir => mkdirp fs (seg :: cur) rest
        | Some (File _) => (MkdirThrows, fs)
        | None => mkdirp (<[seg :: cur := Dir]> fs) (seg :: cur) rest
        end
  end.

Definition mkdirSync_recursive (cwd : key) (p : string) (fs : gmap key node)
  : mkdir_result * gmap key node :=
  if includes nul p then (MkdirThrows, fs)
  else if decide (p = "") then (MkdirThrows, fs)
  else
    match fs !! start_of cwd p with
    | Some Dir => mkdirp fs (start_of cwd p) (split_slash p)
    | _ => (MkdirThrows, fs)
    end.

(** The process goes on to serve requests, having printed [log] if
    anything, or it has called [process.exit(code)]. *)
Inductive startup_outcome : Type :=
  | Started (log : option string)
  | Exited (code : Z).

(** [if (!fs.existsSync(cache)) { try { fs.mkdirSync(cache, { recursive:
    true }); console.log(...) } catch (err) { console.error(...);
    process.exit(1) } }] *)
Definition startup (cwd : key) (cache : string) (fs : gmap key node)
  : startup_outcome * gmap key node :=
  match existsSync cwd cache fs with
  | (Ok true, _) => (Started None, fs)
  | _ =>
      match mkdirSync_recursive cwd cache fs with
      | (Made, fs') => (Started (Some (" Created cache directory: " +:+ cache)), fs')
      | (MkdirThrows, fs') => (Exited 1, fs')
      end
  end.

(** ** The routes *)

(** A request as a handler receives it: the route, [req.params.name] and
    [req.body]. *)
Inductive http_request : Type :=
  | POST_write (req_body : write_form)
  | GET_note (n : string)
  | PUT_note (n : string) (req_body : option string)
  | DELETE_note (n : string)
  | GET_notes.

Definition route (cwd : key) (cache : string) (req : http_request) : M response :=
  match req with
  | POST_write req_body => post_write cwd cache req_body
  | GET_note n => get_note cwd cache n
  | PUT_note n req_body => put_note cwd cache n req_body
  | DELETE_note n => delete_note cwd cache n
  | GET_notes => get_notes cwd cache
  end.

(** The note name a request is about; POST /write without [note_name]
    is about the name "undefined". *)
Definition target (req : http_request) : option string :=
  match req with
  | POST_write req_body =>
      Some (match note_name req_body with Some n => n | None => "undefined" end)
  | GET_note n | PUT_note n _ | DELETE_note n => Some n
  | GET_notes => None
  end.

(** What a request does to one entry: nothing, or it sets it (to a file)
    or removes it. *)
Definition apply_change (c : option (option node)) (k : key) (fs : gmap key node)
  : gmap key node :=
  match c with
  | None => fs
  | Some (Some nd) => <[k := nd]> fs
  | Some None => delete k fs
  end.

(** ** Sample file systems *)

Definition sample_cwd : key := at_path ["srv"].

Definition sample_cache_key : key := at_path ["srv"; "cache"].

Definition sample_fs : gmap key node :=
  <[at_path ["srv"; "cache"; "sub"] := Dir]>
  (<[at_path ["srv"; "cache"; "_draft.txt"] := File "tmp"]>
  (<[at_path ["srv"; "cache"; ".hidden"] := File "h"]>
  (<[at_path ["srv"; "cache"; "x.md"] := File "markdown"]>
  (<[at_path ["srv"; "cache"; "x.txt"] := File "plain"]>
  (<[at_path ["srv"; "cache"] := Dir]>
  (<[at_path ["srv"; "secret.txt"] := File "key"]>
  (<[at_path ["srv"] := Dir]>
  {[ at_path [] := Dir ]}))))))).

(** A cache directory that is empty, and one holding the single note "x". *)
Definition empty_cache_fs : gmap key node :=
  <[at_path ["srv"; "cache"] := Dir]>
  (<[at_path ["srv"] := Dir]>
  {[ at_path [] := Dir ]}).

(** A file system in which the cache directory has been removed. *)
Definition no_cache_fs : gmap key node :=
  <[at_path ["srv"] := Dir]> {[ at_path [] := Dir ]}.

Definition one_note_fs : gmap key node :=
  <[("x" +:+ ".txt") :: sample_cache_key := File "plain"]> empty_cache_fs.

(** A session on the notes "x" and "y". *)
Definition sample_session : list request :=
  [Update "x" "world"; Create "y" "text"; Delete "x"; Read "x"; List].

(** A cache directory in which d.txt is a directory. *)
Definition dir_note_fs : gmap key node :=
  <[at_path ["srv"; "cache"; "d.txt"] := Dir]> empty_cache_fs.

(** A name with a NUL character. *)
Definition nul_name : string := String "a" (String nul "b").

(** * Properties *)

(** ** Strings and path segments *)

Lemma includes_app c a b : includes c (a +:+ b) = includes c a || includes c b.
Proof. induction a as [|x a IH]; simpl; [done|]. by case_decide. Qed.

Lemma startsWith_app s t c : s ≠ "" → startsWith (s +:+ t) c = startsWith s c.
Proof. by destruct s. Qed.

Lemma endsWith_app s t c : t ≠ "" → endsWith (s +:+ t) c = endsWith t c.
Proof.
  intros Ht. induction s as [|x s IH]; simpl; [done|].
  rewrite IH. destruct (s +:+ t) eqn:E; [|done].
  destruct s; simpl in E; [done | discriminate].
Qed.

Lemma endsWith_includes s c : includes c s = false → endsWith s c = false.
Proof.
  induction s as [|x s IH]; simpl; [done|].
  destruct (decide (x = c)) as [|Hx]; [done|]. intros Hs.
  destruct s; [by apply bool_decide_eq_false | auto].
Qed.

Lemma startsWith_includes s c : includes c s = false → startsWith s c = false.
Proof.
  destruct s as [|x s]; simpl; [done|].
  destruct (decide (x = c)); [done|]. by rewrite bool_decide_eq_false.
Qed.

Lemma split_slash_cons s : ∃ x xs, split_slash s = x :: xs.
Proof.
  induction s as [|c s (x & xs & IH)]; simpl; [by eauto|].
  case_decide; [by eauto|]. rewrite IH. eauto.
Qed.

Lemma split_slash_app a b :
  split_slash (a +:+ String slash b) = split_slash a ++ split_slash b.
Proof.
  induction a as [|c a IH]; simpl.
  - done.
  - case_decide; [by rewrite IH|].
    rewrite IH. by destruct (split_slash_cons a) as (x & xs & ->).
Qed.

Lemma split_slash_plain s : includes slash s = false → split_slash s = [s].
Proof.
  induction s as [|c s IH]; simpl; [done|].
  destruct (decide (c = slash)); [done|]. intros Hs. by rewrite IH.
Qed.

Lemma split_slash_excludes c s :
  c = slash ∨ includes c s = false →
  Forall (λ seg, includes c seg = false) (split_slash s).
Proof.
  induction s as [|x s IH]; simpl; intros Hc.
  - by repeat constructor.
  - assert (c = slash ∨ includes c s = false) as Hc'.
    { destruct Hc as [?|Hc]; [by left|right]. by destruct (decide (x = c)). }
    specialize (IH Hc').
    destruct (decide (x = slash)) as [->|Hx]; [by constructor|].
    assert (x ≠ c) as Hxc.
    { destruct Hc as [->|Hc]; [done|]. by destruct (decide (x = c)). }
    destruct (split_slash s) as [|y ys]; simpl.
    + repeat constructor. simpl. by rewrite decide_False.
    + inversion IH; subst. constructor; [|done]. simpl. by rewrite decide_False.
Qed.

Lemma join_slash_cons x y ys :
  join_slash (x :: y :: ys) = x +:+ String slash (join_slash (y :: ys)).
Proof. done. Qed.

Lemma split_join_slash segs :
  segs ≠ [] → Forall (λ seg, includes slash seg = false) segs →
  split_slash (join_slash segs) = segs.
Proof.
  induction segs as [|x [|y ys] IH]; intros Hne Hall; [done|..].
  - apply split_slash_plain. by inversion Hall.
  - rewrite join_slash_cons, split_slash_app. inversion Hall; subst.
    rewrite IH by done. by rewrite split_slash_plain.
Qed.

Lemma join_slash_excludes c segs :
  c ≠ slash → Forall (λ seg, includes c seg = false) segs →
  includes c (join_slash segs) = false.
Proof.
  intros Hc. induction segs as [|x [|y ys] IH]; intros Hall; [done|..].
  - by inversion Hall.
  - rewrite join_slash_cons, includes_app. inversion Hall; subst.
    simpl includes at 2. rewrite decide_False by done.
    rewrite IH by done. by rewrite orb_false_r.
Qed.

Lemma join_slash_startsWith x xs :
  x ≠ "" → startsWith (join_slash (x :: xs)) slash = startsWith x slash.
Proof.
  intros Hx. destruct xs as [|y ys]; [done|].
  rewrite join_slash_cons. by apply startsWith_app.
Qed.

Lemma join_slash_nonempty x xs : x ≠ "" → join_slash (x :: xs) ≠ "".
Proof. destruct xs, x; done. Qed.

(** ** Path resolution and normalization *)

Lemma is_name_spec f :
  is_name f = true ↔ (f ≠ "" ∧ f ≠ "." ∧ f ≠ "..") ∧ includes slash f = false.
Proof.
  unfold is_name. rewrite andb_true_iff, bool_decide_eq_true, negb_true_iff. done.
Qed.

Lemma is_component_spec f :
  is_component f = true ↔ is_name f = true ∧ includes nul f = false.
Proof. unfold is_component. by rewrite andb_true_iff, negb_true_iff. Qed.

Lemma walk_step_name cur f : is_name f = true → walk_step cur f = f :: cur.
Proof.
  intros [(Hne & Hd & Hdd) _]%is_name_spec. unfold walk_step.
  rewrite decide_False by (by intros [?|?]). by rewrite decide_False.
Qed.

Lemma walk_step_empty cur : walk_step cur "" = cur.
Proof. done. Qed.

Lemma walk_step_dot cur : walk_step cur "." = cur.
Proof. done. Qed.

Lemma walk_app fs cur a b :
  walk fs cur (a ++ b) =
  match walk fs cur a with Ok c => walk fs c b | Throw e => Throw e end.
Proof.
  revert cur. induction a as [|seg a IH]; intros cur; simpl; [done|].
  destruct (fs !! cur) as [[]|]; auto.
Qed.

Lemma walk_first_dir fs cur seg segs k :
  walk fs cur (seg :: segs) = Ok k → fs !! cur = Some Dir.
Proof. simpl. by destruct (fs !! cur) as [[]|]. Qed.

Lemma normalize_step_inv allow acc seg :
  norm_inv allow acc → norm_inv allow (normalize_step allow acc seg).
Proof.
  unfold norm_inv, normalize_step. intros Hacc.
  destruct (decide (seg = "" ∨ seg = ".")) as [|Hseg]; [done|].
  destruct (decide (seg = "..")) as [->|Hdd].
  - destruct acc as [|last res']; [destruct allow; by repeat constructor|].
    destruct (decide (last = "..")) as [->|]; [|by inversion Hacc].
    destruct allow; [|done]. constructor; [done|done].
  - constructor; [naive_solver|done].
Qed.

Lemma normalize_fold_inv allow segs acc :
  norm_inv allow acc → norm_inv allow (fold_left (normalize_step allow) segs acc).
Proof.
  revert acc. induction segs as [|seg segs IH]; intros acc Hacc; simpl; [done|].
  by apply IH, normalize_step_inv.
Qed.

Lemma normalize_fold_Forall (Q : string → Prop) allow segs acc :
  Q ".." → Forall Q segs → Forall Q acc →
  Forall Q (fold_left (normalize_step allow) segs acc).
Proof.
  intros Hdd. revert acc. induction segs as [|seg segs IH]; intros acc Hsegs Hacc; simpl; [done|].
  inversion Hsegs; subst. apply IH; [done|]. unfold normalize_step.
  repeat case_decide; try done.
  - destruct acc as [|last res']; [destruct allow; by repeat constructor|].
    case_decide; [destruct allow; [by constructor|done]|by inversion Hacc].
  - by constructor.
Qed.

Lemma walk_normalize_step fs allow start acc seg c :
  norm_inv allow acc → (allow = false → start = []) →
  walk fs start (rev acc) = Ok c → fs !! c = Some Dir →
  walk fs start (rev (normalize_step allow acc seg)) = Ok (walk_step c seg).
Proof.
  intros Hacc Habs Hwalk Hdir. unfold normalize_step, walk_step.
  destruct (decide (seg = "" ∨ seg = ".")) as [|Hseg]; [done|].
  destruct (decide (seg = "..")) as [->|Hdd].
  - destruct acc as [|last res'].
    + simpl in Hwalk. injection Hwalk as <-.
      destruct allow; simpl; [by rewrite Hdir|]. by rewrite Habs.
    + destruct (decide (last = "..")) as [->|Hlast].
      * inversion Hacc as [|?? (_ & _ & Hallow) _]; subst.
        destruct allow; [|by destruct Hallow].
        change (rev (".." :: ".." :: res')) with (rev (".." :: res') ++ [".."]).
        rewrite walk_app, Hwalk. simpl. by rewrite Hdir.
      * simpl in Hwalk. rewrite walk_app in Hwalk.
        destruct (walk fs start (rev res')) as [c'|] eqn:Hc'; [|done].
        simpl in Hwalk. destruct (fs !! c') as [[]|]; try done.
        inversion Hacc as [|?? (? & ? & _) _]; subst.
        unfold walk_step in Hwalk.
        rewrite decide_False in Hwalk by (by intros [?|?]).
        rewrite decide_False in Hwalk by done. by injection Hwalk as <-.
  - simpl. rewrite walk_app, Hwalk. simpl. rewrite Hdir.
    unfold walk_step. rewrite decide_False by done. by rewrite decide_False.
Qed.

Lemma walk_normalize_fold fs allow start segs acc c K :
  norm_inv allow acc → (allow = false → start = []) →
  walk fs start (rev acc) = Ok c → walk fs c segs = Ok K →
  walk fs start (rev (fold_left (normalize_step allow) segs acc)) = Ok K.
Proof.
  intros Hacc Habs. revert acc c Hacc.
  induction segs as [|seg segs IH]; intros acc c Hacc Hc HK; simpl in *.
  - by rewrite Hc, HK.
  - destruct (fs !! c) as [[]|] eqn:Hdir; try done.
    eapply IH; [by apply normalize_step_inv| |done].
    by apply walk_normalize_step.
Qed.

(** Resolving the normalized segments reaches what the original segments
    reach, whenever those resolve at all. *)
Lemma walk_normalizeString fs allow start segs K :
  (allow = false → start = []) →
  walk fs start segs = Ok K →
  walk fs start (normalizeString allow segs) = Ok K.
Proof.
  intros Habs HK. unfold normalizeString.
  by eapply (walk_normalize_fold fs allow start segs [] start); [constructor|..].
Qed.

Section Resolve.

Variable cwd : key.

Lemma resolve_walk fs p k :
  resolve cwd fs p = Ok k ↔
  includes nul p = false ∧ p ≠ "" ∧ walk fs (start_of cwd p) (split_slash p) = Ok k.
Proof.
  unfold resolve, start_of. destruct (includes nul p).
  { split; [done|]. by intros [? _]. }
  destruct (decide (p = "")) as [->|Hp].
  { split; [done|]. by intros (_ & ? & _). }
  split; [by intros ->|]. by intros (_ & _ & ->).
Qed.

Lemma normalizeString_plain allow p :
  Forall (λ seg, includes slash seg = false) (normalizeString allow (split_slash p)).
Proof.
  unfold normalizeString. apply List.Forall_rev.
  apply normalize_fold_Forall; [done| |constructor].
  apply split_slash_excludes. by left.
Qed.

Lemma normalizeString_nonempty allow segs :
  Forall (λ seg, seg ≠ "") (normalizeString allow segs).
Proof.
  unfold normalizeString. apply List.Forall_rev.
  eapply Forall_impl; [apply (normalize_fold_inv allow segs []); constructor|].
  by intros seg [? _].
Qed.

(** What [path.normalize] returns for a non-empty path that does not end
    in a separator. *)
Lemma path_normalize_eq p :
  p ≠ "" → endsWith p slash = false →
  path_normalize p =
    match normalizeString (negb (startsWith p slash)) (split_slash p) with
    | [] => if startsWith p slash then "/" else "."
    | N => if startsWith p slash then String slash (join_slash N) else join_slash N
    end.
Proof.
  intros Hp Hend. unfold path_normalize. rewrite decide_False by done.
  rewrite Hend.
  pose proof (normalizeString_nonempty (negb (startsWith p slash)) (split_slash p)) as Hne.
  destruct (normalizeString _ _) as [|x xs]; [done|].
  inversion Hne; subst. by rewrite decide_False by by apply join_slash_nonempty.
Qed.

Lemma path_normalize_start p :
  p ≠ "" → endsWith p slash = false →
  path_normalize p ≠ "" ∧ start_of cwd (path_normalize p) = start_of cwd p.
Proof.
  intros Hp Hend. rewrite path_normalize_eq by done. unfold start_of.
  pose proof (normalizeString_nonempty (negb (startsWith p slash)) (split_slash p)) as Hne.
  pose proof (normalizeString_plain (negb (startsWith p slash)) p) as Hplain.
  destruct (normalizeString _ _) as [|x xs]; [by destruct (startsWith p slash)|].
  inversion Hne; inversion Hplain; subst.
  destruct (startsWith p slash); [done|]. split; [by apply join_slash_nonempty|].
  rewrite join_slash_startsWith by done. by rewrite startsWith_includes.
Qed.

Lemma path_normalize_excludes_nul p :
  p ≠ "" → endsWith p slash = false →
  includes nul p = false → includes nul (path_normalize p) = false.
Proof.
  intros Hp Hend Hnul. rewrite path_normalize_eq by done.
  assert (Forall (λ seg, includes nul seg = false)
            (normalizeString (negb (startsWith p slash)) (split_slash p))) as HN.
  { unfold normalizeString. apply List.Forall_rev.
    apply normalize_fold_Forall; [done| |constructor].
    apply split_slash_excludes. by right. }
  destruct (normalizeString _ _) as [|x xs] eqn:E; [by destruct (startsWith p slash)|].
  apply (join_slash_excludes nul) in HN; [|done].
  by destruct (startsWith p slash).
Qed.

Lemma walk_path_normalize fs p K :
  p ≠ "" → endsWith p slash = false →
  walk fs (start_of cwd p) (split_slash p) = Ok K →
  walk fs (start_of cwd p) (split_slash (path_normalize p)) = Ok K.
Proof.
  intros Hp Hend HK. rewrite path_normalize_eq by done.
  assert (fs !! start_of cwd p = Some Dir) as Hstart.
  { destruct (split_slash_cons p) as (x & xs & E). rewrite E in HK.
    by eapply walk_first_dir. }
  apply (walk_normalizeString fs (negb (startsWith p slash))) in HK; last first.
  { unfold start_of. by destruct (startsWith p slash). }
  pose proof (normalizeString_plain (negb (startsWith p slash)) p) as Hplain.
  unfold start_of in *.
  destruct (normalizeString _ _) as [|x xs] eqn:E.
  - simpl in HK. injection HK as <-.
    destruct (startsWith p slash); simpl;
      by rewrite ?walk_step_empty, ?walk_step_dot, !Hstart.
  - destruct (startsWith p slash).
    + change (String slash (join_slash (x :: xs)))
        with ("" +:+ String slash (join_slash (x :: xs))).
      rewrite split_slash_app, split_join_slash by done. simpl.
      by rewrite Hstart, walk_step_empty.
    + by rewrite split_join_slash.
Qed.

(** [path.join(cache, f)] for a file name [f] resolves to the entry [f] of
    the directory [cache] resolves to. *)
Lemma walk_join fs cache f K :
  cache ≠ "" → is_name f = true →
  walk fs (start_of cwd cache) (split_slash cache) = Ok K → fs !! K = Some Dir →
  path_join cache f ≠ "" ∧
  walk fs (start_of cwd (path_join cache f)) (split_slash (path_join cache f)) = Ok (f :: K).
Proof.
  intros Hcache Hf HK Hdir.
  pose proof Hf as [(Hf1 & _ & _) Hplain]%is_name_spec.
  unfold path_join. rewrite decide_False by done. rewrite decide_False by done.
  set (p := cache +:+ "/" +:+ f).
  assert (p ≠ "") as Hp by (unfold p; by destruct cache).
  assert (endsWith p slash = false) as Hend.
  { unfold p. rewrite endsWith_app by done.
    change ("/" +:+ f) with (String slash "" +:+ f).
    rewrite endsWith_app by done. by apply endsWith_includes. }
  assert (start_of cwd p = start_of cwd cache) as Hstart.
  { unfold start_of, p. by rewrite startsWith_app. }
  destruct (path_normalize_start p Hp Hend) as [Hne ->].
  split; [done|]. apply walk_path_normalize; [done..|].
  rewrite Hstart. unfold p. change ("/" +:+ f) with (String slash f).
  rewrite split_slash_app, (split_slash_plain f) by done.
  rewrite walk_app, HK. simpl. rewrite Hdir. by rewrite walk_step_name.
Qed.

Lemma resolve_join fs cache f K :
  resolve cwd fs cache = Ok K → fs !! K = Some Dir → is_component f = true →
  resolve cwd fs (path_join cache f) = Ok (f :: K).
Proof.
  intros (Hnul & Hcache & HK)%resolve_walk Hdir [Hf Hfnul]%is_component_spec.
  destruct (walk_join fs cache f K) as [Hne Hwalk]; [done..|].
  apply resolve_walk. split_and!; [|done..].
  pose proof Hf as [(Hf1 & _ & _) Hplain]%is_name_spec.
  unfold path_join. rewrite decide_False by done. rewrite decide_False by done.
  apply path_normalize_excludes_nul.
  - by destruct cache.
  - rewrite endsWith_app by done.
    change ("/" +:+ f) with (String slash "" +:+ f).
    rewrite endsWith_app by done. by apply endsWith_includes.
  - rewrite !includes_app, Hnul, Hfnul. done.
Qed.

Lemma resolve_join_inv fs cache f K k :
  resolve cwd fs cache = Ok K → fs !! K = Some Dir → is_name f = true →
  resolve cwd fs (path_join cache f) = Ok k → k = f :: K.
Proof.
  intros (Hnul & Hcache & HK)%resolve_walk Hdir Hf (_ & _ & Hk)%resolve_walk.
  destruct (walk_join fs cache f K) as [Hne Hwalk]; [done..|]. congruence.
Qed.

End Resolve.

(** ** Changes that leave every directory in place *)

Lemma dirs_agree_sym fs fs' : dirs_agree fs fs' → dirs_agree fs' fs.
Proof. intros H k. symmetry. apply H. Qed.

Lemma dirs_agree_insert_file (fs : gmap key node) k d :
  fs !! k ≠ Some Dir → dirs_agree fs (<[k := File d]> fs).
Proof.
  intros Hk k'. destruct (decide (k = k')) as [<-|Hne].
  - rewrite lookup_insert_eq. naive_solver.
  - by rewrite lookup_insert_ne.
Qed.

Lemma dirs_agree_delete_file (fs : gmap key node) k d :
  fs !! k = Some (File d) → dirs_agree fs (delete k fs).
Proof.
  intros Hk k'. destruct (decide (k = k')) as [<-|Hne].
  - rewrite lookup_delete_eq, Hk. naive_solver.
  - by rewrite lookup_delete_ne.
Qed.

Lemma walk_dirs_agree fs fs' cur segs k :
  dirs_agree fs fs' → walk fs cur segs = Ok k → walk fs' cur segs = Ok k.
Proof.
  intros Hagree. revert cur. induction segs as [|seg segs IH]; intros cur; simpl; [done|].
  destruct (fs !! cur) as [[]|] eqn:Hcur; try done.
  apply Hagree in Hcur. rewrite Hcur. apply IH.
Qed.

Lemma resolve_dirs_agree cwd fs fs' p k :
  dirs_agree fs fs' → resolve cwd fs p = Ok k → resolve cwd fs' p = Ok k.
Proof.
  intros Hagree. unfold resolve. destruct (includes nul p); [done|].
  case_decide; [done|]. by apply walk_dirs_agree.
Qed.

(** ** What each handler answers *)

(** Unfolds a handler down to the [fs] calls it makes. *)
Ltac unfold_handler :=
  unfold serve, post_write, get_note, put_note, delete_note, note_path,
    mbind, M_bind, existsSync, writeFileSync, readFileSync, unlinkSync.

Section Answers.

Variable cwd : key.
Variable cache : string.

Lemma serve_get_note fs n :
  serve (get_note cwd cache n) fs =
  (match stored cwd cache fs n with
   | Some (File d) => sent 200 d
   | Some Dir => failed EISDIR
   | None => not_found
   end, fs).
Proof.
  unfold stored. unfold_handler.
  destruct (resolve cwd fs _) as [k|e] eqn:Hk; simpl; [|done].
  destruct (fs !! k) as [[d|]|] eqn:Hlook; simpl; by rewrite ?Hk, ?Hlook.
Qed.

Lemma serve_delete_note fs n :
  serve (delete_note cwd cache n) fs =
  match resolve cwd fs (note_path cache n) with
  | Ok k =>
      match fs !! k with
      | Some (File _) => (sent 200 "Note deleted", delete k fs)
      | Some Dir => (failed EISDIR, fs)
      | None => (not_found, fs)
      end
  | Throw _ => (not_found, fs)
  end.
Proof.
  unfold_handler.
  destruct (resolve cwd fs _) as [k|e] eqn:Hk; simpl; [|done].
  destruct (fs !! k) as [[d|]|] eqn:Hlook; simpl; by rewrite ?Hk, ?Hlook.
Qed.

Lemma serve_put_note fs n req_body :
  serve (put_note cwd cache n req_body) fs =
  match resolve cwd fs (note_path cache n) with
  | Ok k =>
      match fs !! k, req_body with
      | Some _, None => (failed ERR_INVALID_ARG_TYPE, fs)
      | Some (File _), Some d => (sent 200 "Note updated", <[k := File d]> fs)
      | Some Dir, Some _ => (failed EISDIR, fs)
      | None, _ => (not_found, fs)
      end
  | Throw _ => (not_found, fs)
  end.
Proof.
  unfold_handler.
  destruct (resolve cwd fs _) as [k|e] eqn:Hk; simpl; [|done].
  destruct (fs !! k) as [[d|]|] eqn:Hlook; simpl; [| |done];
    (destruct req_body; [|done]); by rewrite Hk, Hlook.
Qed.

Lemma serve_post_write fs req_body :
  serve (post_write cwd cache req_body) fs =
  match resolve cwd fs (path_join cache (js_add (note_name req_body) ".txt")) with
  | Ok k =>
      match fs !! k, note req_body, k with
      | Some _, _, _ => (sent 400 "Note already exists", fs)
      | None, None, _ => (failed ERR_INVALID_ARG_TYPE, fs)
      | None, Some d, _ :: parent =>
          match fs !! parent with
          | Some Dir => (sent 201 "Note created", <[k := File d]> fs)
          | Some (File _) => (failed ENOTDIR, fs)
          | None => (failed ENOENT, fs)
          end
      | None, Some d, [] => (failed ENOENT, fs)
      end
  | Throw e =>
      match note req_body with
      | None => (failed ERR_INVALID_ARG_TYPE, fs)
      | Some _ => (failed e, fs)
      end
  end.
Proof.
  unfold_handler.
  destruct (resolve cwd fs _) as [k|e] eqn:Hk; simpl.
  - destruct (fs !! k) as [nd|] eqn:Hlook; simpl; [done|].
    destruct (note req_body); [|done]. rewrite Hk, Hlook.
    destruct k as [|seg parent]; [done|]. by destruct (fs !! parent) as [[]|].
  - destruct (note req_body); [|done]. by rewrite Hk.
Qed.

End Answers.

(** ** Note names *)

Lemma valid_name_spec n :
  valid_name n = true ↔ includes slash n = false ∧ includes nul n = false.
Proof. unfold valid_name. by rewrite andb_true_iff, !negb_true_iff. Qed.

Lemma is_name_txt n : includes slash n = false → is_name (n +:+ ".txt") = true.
Proof.
  intros Hn. apply is_name_spec. split; [split_and!|].
  - by destruct n.
  - by destruct n as [|a [|b n]].
  - by destruct n as [|a [|b [|c n]]].
  - by rewrite includes_app, Hn.
Qed.

Lemma is_component_txt n : valid_name n = true → is_component (n +:+ ".txt") = true.
Proof.
  intros [Hs Hn]%valid_name_spec. apply is_component_spec.
  split; [by apply is_name_txt|]. by rewrite includes_app, Hn.
Qed.

Lemma txt_inj n m : n +:+ ".txt" = m +:+ ".txt" → n = m.
Proof.
  revert m. induction n as [|a n IH]; intros [|b m] Heq; simpl in *; [done|..].
  - by destruct m as [|? [|? [|? [|? ?]]]].
  - by destruct n as [|? [|? [|? [|? ?]]]].
  - injection Heq as -> Heq. f_equal. by apply IH.
Qed.

Lemma length_append (a b : string) :
  String.length (a +:+ b) = String.length a + String.length b.
Proof. induction a as [|x a IH]; simpl; [done|]. by rewrite IH. Qed.

Lemma append_left_id (a b : string) : b = a +:+ b → a = "".
Proof.
  intros H%(f_equal String.length). rewrite length_append in H.
  destruct a; [done|]. simpl in H. lia.
Qed.

Lemma append_right_id (a b : string) : b = b +:+ a → a = "".
Proof.
  intros H%(f_equal String.length). rewrite length_append in H.
  destruct a; [done|]. simpl in H. lia.
Qed.

Section Notes.

Variable cwd : key.
Variable cache : string.

Lemma resolve_note_path fs K n :
  cache_ready cwd cache fs K → valid_name n = true →
  resolve cwd fs (note_path cache n) = Ok ((n +:+ ".txt") :: K).
Proof.
  intros [HK Hdir] Hn. by apply resolve_join, is_component_txt.
Qed.

Lemma stored_valid fs K n :
  cache_ready cwd cache fs K → valid_name n = true →
  stored cwd cache fs n = fs !! ((n +:+ ".txt") :: K).
Proof. intros HK Hn. unfold stored. by rewrite (resolve_note_path fs K). Qed.

Lemma stored_insert_file fs n k d :
  resolve cwd fs (note_path cache n) = Ok k → fs !! k ≠ Some Dir →
  stored cwd cache (<[k := File d]> fs) n = Some (File d).
Proof.
  intros Hk Hnd. unfold stored.
  rewrite (resolve_dirs_agree cwd fs _ _ k) by by try apply dirs_agree_insert_file.
  by rewrite lookup_insert_eq.
Qed.

Lemma stored_delete_file fs n k d :
  resolve cwd fs (note_path cache n) = Ok k → fs !! k = Some (File d) →
  stored cwd cache (delete k fs) n = None.
Proof.
  intros Hk Hd. unfold stored.
  rewrite (resolve_dirs_agree cwd fs _ _ k) by by try eapply dirs_agree_delete_file.
  by rewrite lookup_delete_eq.
Qed.

(** A successful POST /write wrote a new file where the path resolves. *)
Lemma post_write_created fs fs' req_body :
  serve (post_write cwd cache req_body) fs = (sent 201 "Note created", fs') →
  ∃ k d, resolve cwd fs (path_join cache (js_add (note_name req_body) ".txt")) = Ok k ∧
         note req_body = Some d ∧ fs !! k = None ∧ fs' = <[k := File d]> fs.
Proof.
  rewrite serve_post_write. intros H.
  repeat case_match; simplify_eq. eauto 10.
Qed.

(** A successful DELETE removed the file the path resolves to. *)
Lemma delete_note_deleted fs fs' n :
  serve (delete_note cwd cache n) fs = (sent 200 "Note deleted", fs') →
  ∃ k d, resolve cwd fs (note_path cache n) = Ok k ∧
         fs !! k = Some (File d) ∧ fs' = delete k fs.
Proof.
  rewrite serve_delete_note. intros H.
  repeat case_match; simplify_eq. eauto 10.
Qed.

(** C1: for a valid name [n] and content [t], in a store with no entry for
    [n], POST /write answers 201 "Note created" and the following
    GET /notes/n answers 200 with exactly [t]. *)
Theorem create_then_read fs K n t :
  cache_ready cwd cache fs K → valid_name n = true → stored cwd cache fs n = None →
  ∃ fs',
    serve (post_write cwd cache {| note_name := Some n; note := Some t |}) fs
      = (sent 201 "Note created", fs') ∧
    serve (get_note cwd cache n) fs' = (sent 200 t, fs').
Proof.
  intros Hready Hn Habsent.
  pose proof (resolve_note_path fs K n Hready Hn) as Hk.
  rewrite (stored_valid fs K) in Habsent by done.
  destruct Hready as [_ Hdir].
  exists (<[(n +:+ ".txt") :: K := File t]> fs). split.
  - rewrite serve_post_write. simpl. fold (note_path cache n).
    by rewrite Hk, Habsent, Hdir.
  - rewrite serve_get_note, (stored_insert_file fs n _ t); [done..|].
    by rewrite Habsent.
Qed.

(** C2: after a successful Create(n, t) a second POST /write for [n], with
    any content or none, answers 400 "Note already exists" and changes
    nothing; GET /notes/n still answers exactly [t]. *)
Theorem create_twice_already_exists fs fs1 n t note2 :
  serve (post_write cwd cache {| note_name := Some n; note := Some t |}) fs
    = (sent 201 "Note created", fs1) →
  serve (post_write cwd cache {| note_name := Some n; note := note2 |}) fs1
    = (sent 400 "Note already exists", fs1) ∧
  serve (get_note cwd cache n) fs1 = (sent 200 t, fs1).
Proof.
  intros (k & d & Hk & Hd & Hnone & ->)%post_write_created.
  simpl in Hk, Hd. injection Hd as <-.
  assert (fs !! k ≠ Some Dir) as Hnd by by rewrite Hnone.
  split.
  - rewrite serve_post_write. simpl.
    rewrite (resolve_dirs_agree cwd fs _ _ k) by by try apply dirs_agree_insert_file.
    by rewrite lookup_insert_eq.
  - by rewrite serve_get_note, (stored_insert_file fs n k t).
Qed.

(** C3: when [n] names a stored note with content [t], PUT /notes/n with
    body [t2] answers 200 "Note updated" and the following GET /notes/n
    answers exactly [t2]; unless [t] is empty that is neither [t] followed
    by [t2] nor [t2] followed by [t]. *)
Theorem update_replaces_content fs n t t2 :
  stored cwd cache fs n = Some (File t) →
  ∃ fs',
    serve (put_note cwd cache n (Some t2)) fs = (sent 200 "Note updated", fs') ∧
    serve (get_note cwd cache n) fs' = (sent 200 t2, fs') ∧
    (t ≠ "" →
       serve (get_note cwd cache n) fs' ≠ (sent 200 (t +:+ t2), fs') ∧
       serve (get_note cwd cache n) fs' ≠ (sent 200 (t2 +:+ t), fs')).
Proof.
  unfold stored. intros Hstored.
  destruct (resolve cwd fs (note_path cache n)) as [k|] eqn:Hk; [|done].
  assert (fs !! k ≠ Some Dir) as Hnd by by rewrite Hstored.
  exists (<[k := File t2]> fs).
  assert (serve (get_note cwd cache n) (<[k := File t2]> fs)
          = (sent 200 t2, <[k := File t2]> fs)) as Hget.
  { by rewrite serve_get_note, (stored_insert_file fs n k t2). }
  split_and!; [|done|].
  - by rewrite serve_put_note, Hk, Hstored.
  - intros Ht. rewrite Hget. split; intros [= Heq]; apply Ht.
    + by apply (append_left_id t t2).
    + by apply (append_right_id t t2).
Qed.

(** C4: when the path of [n] names no entry, GET, PUT and DELETE on
    /notes/n each answer 404 and leave the file system as it is; and in the
    state a successful DELETE /notes/n leaves, GET and a second DELETE
    answer 404. *)
Theorem absent_note_not_found fs n :
  (stored cwd cache fs n = None →
     serve (get_note cwd cache n) fs = (not_found, fs) ∧
     (∀ req_body, serve (put_note cwd cache n req_body) fs = (not_found, fs)) ∧
     serve (delete_note cwd cache n) fs = (not_found, fs)) ∧
  (∀ fs', serve (delete_note cwd cache n) fs = (sent 200 "Note deleted", fs') →
     stored cwd cache fs' n = None ∧
     serve (get_note cwd cache n) fs' = (not_found, fs') ∧
     serve (delete_note cwd cache n) fs' = (not_found, fs')).
Proof.
  assert (∀ fs0, stored cwd cache fs0 n = None →
     serve (get_note cwd cache n) fs0 = (not_found, fs0) ∧
     (∀ req_body, serve (put_note cwd cache n req_body) fs0 = (not_found, fs0)) ∧
     serve (delete_note cwd cache n) fs0 = (not_found, fs0)) as Habsent.
  { intros fs0 Hnone. split_and!.
    - by rewrite serve_get_note, Hnone.
    - intros req_body. rewrite serve_put_note. unfold stored in Hnone.
      destruct (resolve cwd fs0 _); [|done]. by rewrite Hnone.
    - rewrite serve_delete_note. unfold stored in Hnone.
      destruct (resolve cwd fs0 _); [|done]. by rewrite Hnone. }
  split; [apply Habsent|].
  intros fs' (k & d & Hk & Hd & ->)%delete_note_deleted.
  pose proof (stored_delete_file fs n k d Hk Hd) as Hgone.
  destruct (Habsent _ Hgone) as (? & _ & ?). done.
Qed.

End Notes.

(** ** Directory listings *)

Lemma elem_of_children (fs : gmap key node) k s :
  s ∈ children fs k ↔ is_Some (fs !! (s :: k)).
Proof.
  unfold children. rewrite list_elem_of_omap. split.
  - intros ([p nd] & Hin%elem_of_map_to_list & Hg). simpl in Hg.
    destruct p as [|s' parent]; [done|]. case_decide; simplify_eq. eauto.
  - intros [nd Hnd]. exists (s :: k, nd). split; [by apply elem_of_map_to_list|].
    simpl. by rewrite decide_True.
Qed.

Lemma NoDup_children (fs : gmap key node) k : NoDup (children fs k).
Proof.
  unfold children. generalize (NoDup_fst_map_to_list fs).
  induction (map_to_list fs) as [|[p nd] l IH]; intros Hnd; [constructor|].
  rewrite fmap_cons in Hnd. apply NoDup_cons in Hnd as [Hp Hnd].
  specialize (IH Hnd). simpl.
  destruct p as [|s parent]; [done|]. case_decide; [|done].
  subst parent. apply NoDup_cons. split; [|done].
  intros ([q nd'] & Hin & Hg)%list_elem_of_omap. simpl in Hg.
  destruct q as [|s' parent']; [done|]. case_decide; simplify_eq.
  apply Hp, list_elem_of_fmap. by exists (s :: k, nd').
Qed.

Lemma elem_of_listed fs K (files : list string) e :
  e ∈ omap (listed fs K) files ↔
  ∃ f d, f ∈ files ∧ fs !! (f :: K) = Some (File d) ∧
         startsWith f dot = false ∧ startsWith f underscore = false ∧
         e = {| name := path_parse_name f; text := d |}.
Proof.
  rewrite list_elem_of_omap. unfold listed. split.
  - intros (f & Hin & Hl). destruct (fs !! (f :: K)) as [[d|]|] eqn:Hf; try done.
    destruct (startsWith f dot) eqn:?, (startsWith f underscore) eqn:?; simplify_eq/=.
    eauto 10.
  - intros (f & d & Hin & Hf & Hd & Hu & ->). exists f. by rewrite Hf, Hd, Hu.
Qed.

Section Listing.

Variable cwd : key.
Variable cache : string.

Lemma notes_loop_listed fs K files notes :
  cache_ready cwd cache fs K →
  Forall (λ f, is_component f = true ∧ is_Some (fs !! (f :: K))) files →
  notes_loop cwd cache files notes fs = (Ok (notes ++ omap (listed fs K) files), fs).
Proof.
  intros [HK Hdir] Hfiles. revert notes.
  induction Hfiles as [|file files [Hcomp [nd Hnd]] _ IH]; intros notes; simpl.
  - by rewrite app_nil_r.
  - pose proof (resolve_join cwd fs cache file K HK Hdir Hcomp) as Hres.
    unfold mbind, M_bind, lstatSync_isFile, readFileSync, listed.
    rewrite Hres, Hnd. destruct nd as [d|]; simpl; [|apply IH].
    destruct (negb (startsWith file dot) && negb (startsWith file underscore)); [|apply IH].
    rewrite Hres, Hnd, IH. by rewrite <-app_assoc.
Qed.

Lemma serve_get_notes fs K :
  cache_ready cwd cache fs K → wf fs →
  serve (get_notes cwd cache) fs =
    ({| status := 200; payload := Json (omap (listed fs K) (children fs K)) |}, fs).
Proof.
  intros Hready Hwf. pose proof Hready as [HK Hdir].
  unfold serve, get_notes, try_catch, mbind, M_bind, readdirSync.
  rewrite HK, Hdir, (notes_loop_listed fs K); [done..|].
  apply Forall_forall. intros f Hf%elem_of_children. split; [|done].
  by apply (Hwf f K).
Qed.

(** GET /notes answers 500 "Internal Server Error" when the cache
    directory cannot be enumerated: the exception of [readdirSync] is
    caught by the handler itself. *)
Theorem list_unreadable_cache fs :
  (∀ K, ¬ cache_ready cwd cache fs K) →
  serve (get_notes cwd cache) fs = (sent 500 "Internal Server Error", fs).
Proof.
  intros Hnot. unfold serve, get_notes, try_catch, mbind, M_bind, readdirSync.
  destruct (resolve cwd fs cache) as [K|] eqn:HK; [|done].
  destruct (fs !! K) as [[]|] eqn:Hdir; try done.
  by destruct (Hnot K).
Qed.

End Listing.

(** ** The name GET /notes reports *)

Lemma last_index_none c f : includes c f = false → last_index c f = None.
Proof.
  induction f as [|a f IH]; simpl; [done|].
  destruct (decide (a = c)); [done|]. intros Hf. by rewrite IH.
Qed.

Lemma last_index_app c stem ext :
  includes c ext = false →
  last_index c (stem +:+ String c ext) = Some (String.length stem).
Proof.
  intros Hext. induction stem as [|a stem IH]; simpl.
  - by rewrite last_index_none, decide_True.
  - by rewrite IH.
Qed.

Lemma take_string_app stem rest : take_string (String.length stem) (stem +:+ rest) = stem.
Proof.
  induction stem as [|a stem IH]; simpl; [by destruct rest|]. by rewrite IH.
Qed.

Lemma path_parse_name_plain f : includes dot f = false → path_parse_name f = f.
Proof. intros Hf. unfold path_parse_name. by rewrite last_index_none. Qed.

Lemma path_parse_name_ext stem ext :
  startsWith (stem +:+ "." +:+ ext) dot = false → includes dot ext = false →
  path_parse_name (stem +:+ "." +:+ ext) = stem.
Proof.
  intros Hvisible Hext. unfold path_parse_name.
  change ("." +:+ ext) with (String dot ext) in *.
  rewrite last_index_app by done.
  destruct stem as [|a stem]; [done|]. simpl String.length.
  case_decide as Hdd.
  - rewrite Hdd in Hvisible. done.
  - apply (take_string_app (String a stem)).
Qed.

Section ListClaims.

Variable cwd : key.
Variable cache : string.

(** C5: GET /notes answers 200 with one [{name, text}] element for every
    regular file of the cache directory whose name starts with neither '.'
    nor '_', and with no element for any other entry; for an empty cache
    directory the array is empty. *)
Theorem list_visible_files fs K :
  cache_ready cwd cache fs K → wf fs →
  ∃ notes,
    serve (get_notes cwd cache) fs = ({| status := 200; payload := Json notes |}, fs) ∧
    notes = omap (listed fs K) (children fs K) ∧
    NoDup (children fs K) ∧
    (∀ f, f ∈ children fs K ↔ is_Some (fs !! (f :: K))) ∧
    (∀ e, e ∈ notes ↔
          ∃ f d, fs !! (f :: K) = Some (File d) ∧
                 startsWith f dot = false ∧ startsWith f underscore = false ∧
                 e = {| name := path_parse_name f; text := d |}) ∧
    ((∀ f, fs !! (f :: K) = None) → notes = []).
Proof.
  intros Hready Hwf. exists (omap (listed fs K) (children fs K)).
  split_and!.
  - by apply serve_get_notes.
  - done.
  - apply NoDup_children.
  - apply elem_of_children.
  - intros e. rewrite elem_of_listed. split.
    + intros (f & d & _ & ?). by exists f, d.
    + intros (f & d & Hf & ?). exists f, d. split; [|done].
      apply elem_of_children. by rewrite Hf.
  - intros Hempty. destruct (children fs K) as [|f files] eqn:E; [done|].
    assert (f ∈ children fs K) as Hf%elem_of_children by (rewrite E; left).
    rewrite Hempty in Hf. by destruct Hf.
Qed.

(** C9: every regular file [f] of the cache directory whose name starts
    with neither '.' nor '_' is reported under [path.parse(f).name],
    whatever its extension: [f] itself when it has no dot, and otherwise
    what stands before its last dot.  Nothing restricts the listing to
    .txt files, so x.txt and x.md are both reported under the name x. *)
Theorem list_names_drop_extension fs K :
  cache_ready cwd cache fs K → wf fs →
  ∃ notes,
    serve (get_notes cwd cache) fs = ({| status := 200; payload := Json notes |}, fs) ∧
    ∀ f d,
      fs !! (f :: K) = Some (File d) →
      startsWith f dot = false → startsWith f underscore = false →
      {| name := path_parse_name f; text := d |} ∈ notes ∧
      (includes dot f = false → path_parse_name f = f) ∧
      (∀ stem ext, f = stem +:+ "." +:+ ext → includes dot ext = false →
                   path_parse_name f = stem).
Proof.
  intros Hready Hwf. exists (omap (listed fs K) (children fs K)).
  split; [by apply serve_get_notes|].
  intros f d Hf Hdot Hunder. split_and!.
  - apply elem_of_listed. exists f, d. split_and!; try done.
    apply elem_of_children. by rewrite Hf.
  - apply path_parse_name_plain.
  - intros stem ext -> Hext. by apply path_parse_name_ext.
Qed.

End ListClaims.

(** ** What a request can change *)

Lemma file_change_frame fs k fs' k' :
  file_change fs k fs' → k' ≠ k → fs' !! k' = fs !! k'.
Proof.
  intros Hchange Hne. inversion Hchange; subst; [done|..].
  - by rewrite lookup_insert_ne.
  - by rewrite lookup_insert_ne.
  - by rewrite lookup_delete_ne.
Qed.

Lemma file_change_dirs_agree fs k fs' : file_change fs k fs' → dirs_agree fs fs'.
Proof.
  intros Hchange. inversion Hchange as [|s parent d Hk Hnone Hparent|d0 d Hfile|d0 Hfile]; subst.
  - done.
  - apply dirs_agree_insert_file. by rewrite Hnone.
  - apply dirs_agree_insert_file. by rewrite Hfile.
  - by eapply dirs_agree_delete_file.
Qed.

Lemma file_change_wf fs k fs' :
  wf fs → (∀ s parent, k = s :: parent → is_component s = true) →
  file_change fs k fs' → wf fs'.
Proof.
  intros Hwf Hname Hchange.
  pose proof (file_change_dirs_agree _ _ _ Hchange) as Hagree.
  intros s' k' Hsome.
  destruct (decide (s' :: k' = k)) as [Heq|Hne].
  - inversion Hchange as [|s parent d Hk Hnone Hparent|d0 d Hfile|d0 Hfile]; subst.
    + by apply Hwf.
    + injection Hk as -> ->. split; [by eapply Hname|].
      by apply Hagree.
    + destruct (Hwf s' k') as [? Hparent]; [by rewrite Hfile|].
      split; [done|]. by apply Hagree.
    + rewrite lookup_delete_eq in Hsome. by destruct Hsome.
  - rewrite (file_change_frame _ _ _ _ Hchange) in Hsome by done.
    destruct (Hwf s' k' Hsome) as [? Hparent]. split; [done|]. by apply Hagree.
Qed.

(** An entry that path resolution reaches and that does not exist yet has
    a storable name. *)
Lemma walk_new_entry fs cur segs s parent :
  wf fs →
  Forall (λ seg, includes slash seg = false ∧ includes nul seg = false) segs →
  walk fs cur segs = Ok (s :: parent) → fs !! cur = Some Dir →
  fs !! (s :: parent) = None → is_component s = true.
Proof.
  intros Hwf Hsegs. revert cur.
  induction Hsegs as [|seg segs [Hslash Hnul] _ IH]; intros cur Hwalk Hcur Hnone; simpl in Hwalk.
  - injection Hwalk as ->. by rewrite Hcur in Hnone.
  - rewrite Hcur in Hwalk.
    destruct (fs !! walk_step cur seg) as [nd|] eqn:Hnext.
    + destruct nd as [d|]; [|by eapply IH].
      destruct segs as [|seg' segs]; simpl in Hwalk; [|by rewrite Hnext in Hwalk].
      injection Hwalk as Heq. by rewrite <-Heq, Hnext in Hnone.
    + destruct segs as [|seg' segs]; simpl in Hwalk; [|by rewrite Hnext in Hwalk].
      injection Hwalk as Heq. unfold walk_step in Heq, Hnext.
      destruct (decide (seg = "" ∨ seg = ".")) as [|Hseg]; [by rewrite Hcur in Hnext|].
      destruct (decide (seg = "..")) as [->|Hdd].
      * destruct cur as [|x cur']; simpl in Hnext; [by rewrite Hcur in Hnext|].
        destruct (Hwf x cur') as [_ Hp]; [by rewrite Hcur|]. by rewrite Hp in Hnext.
      * injection Heq as -> ->. apply is_component_spec. split; [|done].
        apply is_name_spec. naive_solver.
Qed.

Lemma resolve_new_entry cwd fs p s parent :
  wf fs → resolve cwd fs p = Ok (s :: parent) →
  fs !! (s :: parent) = None → is_component s = true.
Proof.
  intros Hwf (Hnul & Hp & Hwalk)%resolve_walk Hnone.
  destruct (split_slash_cons p) as (x & xs & E).
  eapply walk_new_entry; [done| |done| |done].
  - pose proof (split_slash_excludes slash p (or_introl eq_refl)) as H1.
    pose proof (split_slash_excludes nul p (or_intror Hnul)) as H2.
    rewrite Forall_forall in H1, H2. apply Forall_forall. naive_solver.
  - rewrite E in Hwalk. by eapply walk_first_dir.
Qed.

Lemma wf_check_sound fs : wf_check fs = true → wf fs.
Proof.
  unfold wf_check. rewrite forallb_forall. intros Hall s k [nd Hnd].
  specialize (Hall (s :: k, nd)). simpl in Hall.
  rewrite andb_true_iff, bool_decide_eq_true in Hall. apply Hall.
  by apply list_elem_of_In, elem_of_map_to_list.
Qed.

Section Effects.

Variable cwd : key.
Variable cache : string.

Lemma post_write_changes_only fs req_body :
  changes_only cwd fs (serve (post_write cwd cache req_body) fs).2
    (path_join cache (js_add (note_name req_body) ".txt")).
Proof.
  rewrite serve_post_write.
  destruct (resolve cwd fs _) as [k|] eqn:Hk; [|by left; case_match].
  destruct (fs !! k) as [nd|] eqn:Hlook; [by left|].
  destruct (note req_body) as [d|]; [|by left].
  destruct k as [|s parent]; [by left|].
  destruct (fs !! parent) as [[]|] eqn:Hparent; try by left.
  right. exists (s :: parent). split; [done|]. by eapply change_create.
Qed.

Lemma put_note_changes_only fs n req_body :
  changes_only cwd fs (serve (put_note cwd cache n req_body) fs).2 (note_path cache n).
Proof.
  rewrite serve_put_note.
  destruct (resolve cwd fs _) as [k|] eqn:Hk; [|by left].
  destruct (fs !! k) as [[d0|]|] eqn:Hlook, req_body as [d|]; try by left.
  right. exists k. split; [done|]. by eapply change_overwrite.
Qed.

Lemma delete_note_changes_only fs n :
  changes_only cwd fs (serve (delete_note cwd cache n) fs).2 (note_path cache n).
Proof.
  rewrite serve_delete_note.
  destruct (resolve cwd fs _) as [k|] eqn:Hk; [|by left].
  destruct (fs !! k) as [[d0|]|] eqn:Hlook; try by left.
  right. exists k. split; [done|]. by eapply change_unlink.
Qed.

Lemma changes_only_dirs_agree fs fs' p : changes_only cwd fs fs' p → dirs_agree fs fs'.
Proof.
  intros [->|(k & _ & Hchange)]; [done|]. by eapply file_change_dirs_agree.
Qed.

Lemma changes_only_wf fs fs' p : changes_only cwd fs fs' p → wf fs → wf fs'.
Proof.
  intros [->|(k & Hk & Hchange)] Hwf; [done|].
  eapply file_change_wf; [done| |done].
  intros s parent ->. destruct (fs !! (s :: parent)) as [nd|] eqn:Hlook.
  - by apply (Hwf s parent).
  - by eapply resolve_new_entry.
Qed.

Lemma changes_only_cache_ready fs fs' p K :
  changes_only cwd fs fs' p → cache_ready cwd cache fs K → cache_ready cwd cache fs' K.
Proof.
  intros Hagree%changes_only_dirs_agree [HK Hdir]. split.
  - by eapply resolve_dirs_agree.
  - by apply Hagree.
Qed.

(** With a name [f] that is one segment, the change is at the entry [f]
    of the cache directory. *)
Lemma changes_only_frame fs fs' K f k' :
  cache_ready cwd cache fs K → is_name f = true →
  changes_only cwd fs fs' (path_join cache f) → k' ≠ f :: K → fs' !! k' = fs !! k'.
Proof.
  intros [HK Hdir] Hf [->|(k & Hk & Hchange)] Hne; [done|].
  apply (resolve_join_inv cwd fs cache f K k) in Hk; [|done..]. subst k.
  by eapply file_change_frame.
Qed.

End Effects.

(** ** The store layout *)

Lemma layout_insert K fs notes n t :
  layout K fs notes →
  layout K (<[(n +:+ ".txt") :: K := File t]> fs) (<[n := t]> notes).
Proof.
  intros Hlayout n' Hn'. destruct (decide (n = n')) as [<-|Hne].
  - by rewrite !lookup_insert_eq.
  - rewrite !lookup_insert_ne; [by apply Hlayout|done|].
    intros [= Heq%txt_inj]. done.
Qed.

Lemma layout_delete K fs notes n :
  layout K fs notes →
  layout K (delete ((n +:+ ".txt") :: K) fs) (delete n notes).
Proof.
  intros Hlayout n' Hn'. destruct (decide (n = n')) as [<-|Hne].
  - by rewrite !lookup_delete_eq.
  - rewrite !lookup_delete_ne; [by apply Hlayout|done|].
    intros [= Heq%txt_inj]. done.
Qed.

(** An empty cache directory lays out the empty store. *)
Lemma layout_empty (K : key) (fs : gmap key node) :
  (∀ f, fs !! (f :: K) = None) → layout K fs ∅.
Proof. intros Hempty n _. by rewrite Hempty, lookup_empty. Qed.

Section Layout.

Variable cwd : key.
Variable cache : string.

Lemma handle_changes_only fs req :
  ∃ p, changes_only cwd fs (serve (handle cwd cache req) fs).2 p.
Proof.
  destruct req as [n t|n|n t|n|]; simpl.
  - eexists. apply post_write_changes_only.
  - exists "". left. by rewrite serve_get_note.
  - eexists. apply put_note_changes_only.
  - eexists. apply delete_note_changes_only.
  - exists "". left. unfold serve, get_notes, try_catch, mbind, M_bind, readdirSync.
    destruct (resolve cwd fs cache) as [K|]; [|done].
    destruct (fs !! K) as [[]|]; try done.
    assert (∀ files notes, (notes_loop cwd cache files notes fs).2 = fs) as Hloop.
    { induction files as [|file files IH]; intros notes; simpl; [done|].
      unfold mbind, M_bind, lstatSync_isFile, readFileSync.
      destruct (resolve cwd fs _) as [k|] eqn:Hk; [|done].
      destruct (fs !! k) as [[d|]|] eqn:Hlook; simpl; [|apply IH|done].
      destruct (_ && _); [|apply IH]. rewrite Hk, Hlook. apply IH. }
    specialize (Hloop (children fs K) []).
    destruct (notes_loop _ _ _ _ _) as [[notes|e] fs0]; simpl in *; by subst.
Qed.

(** One request with a valid name: the status is the one the Note Store
    prescribes and the layout holds again. *)
Lemma layout_step fs K notes req :
  cache_ready cwd cache fs K → wf fs → layout K fs notes →
  valid_request req = true →
  status (serve (handle cwd cache req) fs).1 = (spec_step req notes).1 ∧
  layout K (serve (handle cwd cache req) fs).2 (spec_step req notes).2 ∧
  cache_ready cwd cache (serve (handle cwd cache req) fs).2 K ∧
  wf (serve (handle cwd cache req) fs).2.
Proof.
  intros Hready Hwf Hlayout Hvalid.
  destruct (handle_changes_only fs req) as [p Hchange].
  assert (∀ n, valid_name n = true →
            resolve cwd fs (note_path cache n) = Ok ((n +:+ ".txt") :: K)) as Hpath.
  { intros n Hn. by apply resolve_note_path. }
  split_and!.
  - destruct req as [n t|n|n t|n|]; simpl in *.
    + rewrite serve_post_write. simpl. fold (note_path cache n).
      rewrite Hpath, (Hlayout n Hvalid) by done. destruct Hready as [_ ->].
      by destruct (notes !! n).
    + rewrite serve_get_note, (stored_valid cwd cache fs K), (Hlayout n Hvalid) by done.
      by destruct (notes !! n).
    + rewrite serve_put_note, Hpath, (Hlayout n Hvalid) by done. by destruct (notes !! n).
    + rewrite serve_delete_note, Hpath, (Hlayout n Hvalid) by done. by destruct (notes !! n).
    + by rewrite (serve_get_notes cwd cache fs K).
  - destruct req as [n t|n|n t|n|]; simpl in *.
    + rewrite serve_post_write. simpl. fold (note_path cache n).
      rewrite Hpath, (Hlayout n Hvalid) by done. destruct Hready as [_ ->].
      destruct (notes !! n); simpl; [done|]. by apply layout_insert.
    + rewrite serve_get_note. simpl. by destruct (notes !! n).
    + rewrite serve_put_note, Hpath, (Hlayout n Hvalid) by done.
      destruct (notes !! n); simpl; [|done]. by apply layout_insert.
    + rewrite serve_delete_note, Hpath, (Hlayout n Hvalid) by done.
      destruct (notes !! n); simpl; [|done]. by apply layout_delete.
    + rewrite (serve_get_notes cwd cache fs K) by done. done.
  - by eapply changes_only_cache_ready.
  - by eapply changes_only_wf.
Qed.

(** A sequence of requests with valid names: the statuses are the ones the
    Note Store prescribes and the layout holds again. *)
Lemma layout_run fs K notes reqs :
  cache_ready cwd cache fs K → wf fs → layout K fs notes →
  forallb valid_request reqs = true →
  status <$> (serve_all cwd cache reqs fs).1 = (spec_run reqs notes).1 ∧
  layout K (serve_all cwd cache reqs fs).2 (spec_run reqs notes).2 ∧
  cache_ready cwd cache (serve_all cwd cache reqs fs).2 K ∧
  wf (serve_all cwd cache reqs fs).2.
Proof.
  intros Hready Hwf Hlayout Hvalid.
  revert fs notes Hready Hwf Hlayout.
  induction reqs as [|req reqs IH]; intros fs notes Hready Hwf Hlayout; simpl.
  - done.
  - simpl in Hvalid. apply andb_true_iff in Hvalid as [Hreq Hreqs].
    destruct (layout_step fs K notes req Hready Hwf Hlayout Hreq)
      as (Hstatus & Hlayout1 & Hready1 & Hwf1).
    destruct (serve (handle cwd cache req) fs) as [r fs1].
    destruct (spec_step req notes) as [code notes1]. simpl in *.
    destruct (IH Hreqs fs1 notes1 Hready1 Hwf1 Hlayout1)
      as (Hcodes & Hlayout2 & Hready2 & Hwf2).
    destruct (serve_all cwd cache reqs fs1) as [rs fs2].
    destruct (spec_run reqs notes1) as [codes notes2]. simpl in *.
    split_and!; try done. by f_equal.
Qed.

(** One request with a valid name leaves every entry but the file of its
    name as it was. *)
Lemma handle_frame fs K req k' :
  cache_ready cwd cache fs K → wf fs → valid_request req = true →
  (∀ n, request_name req = Some n → k' ≠ (n +:+ ".txt") :: K) →
  (serve (handle cwd cache req) fs).2 !! k' = fs !! k'.
Proof.
  intros Hready Hwf Hvalid Hne.
  destruct req as [n t|n|n t|n|]; simpl in *;
    try (apply valid_name_spec in Hvalid as [Hslash _];
         pose proof (is_name_txt n Hslash) as Hname;
         specialize (Hne n eq_refl)).
  - apply (changes_only_frame cwd cache fs _ K (n +:+ ".txt")); [done..| |done].
    apply (post_write_changes_only cwd cache fs {| note_name := Some n; note := Some t |}).
  - by rewrite serve_get_note.
  - apply (changes_only_frame cwd cache fs _ K (n +:+ ".txt")); [done..| |done].
    apply put_note_changes_only.
  - apply (changes_only_frame cwd cache fs _ K (n +:+ ".txt")); [done..| |done].
    apply delete_note_changes_only.
  - by rewrite (serve_get_notes cwd cache fs K).
Qed.

(** A sequence of requests with valid names leaves every entry but the
    files of the names it is about as it was. *)
Lemma serve_all_frame fs K reqs k' :
  cache_ready cwd cache fs K → wf fs → forallb valid_request reqs = true →
  (∀ n, Some n ∈ request_name <$> reqs → k' ≠ (n +:+ ".txt") :: K) →
  (serve_all cwd cache reqs fs).2 !! k' = fs !! k'.
Proof.
  revert fs. induction reqs as [|req reqs IH]; intros fs Hready Hwf Hvalid Hne; simpl.
  - done.
  - simpl in Hvalid. apply andb_true_iff in Hvalid as [Hreq Hreqs].
    pose proof (handle_frame fs K req k' Hready Hwf Hreq) as Hstep.
    destruct (handle_changes_only fs req) as [p Hchange].
    pose proof (changes_only_cache_ready cwd cache _ _ p K Hchange Hready) as Hready1.
    pose proof (changes_only_wf cwd _ _ p Hchange Hwf) as Hwf1.
    destruct (serve (handle cwd cache req) fs) as [r fs1]. simpl in *.
    specialize (IH fs1 Hready1 Hwf1 Hreqs).
    destruct (serve_all cwd cache reqs fs1) as [rs fs2]. simpl in *.
    rewrite IH, Hstep; [done| |].
    + intros n Hn. apply Hne. rewrite Hn. by left.
    + intros n Hn. apply Hne. by right.
Qed.

(** C6, as amended: for names without separator and without NUL the
    layout is an invariant of the service.  When the files [n].txt of the
    cache directory hold exactly the notes of the store (each note's raw
    text, nothing else, and no file for a name without note), then after
    any sequence of requests with such names the statuses are the ones the
    Note Store prescribes and the files again hold exactly the notes of
    the store; GET /notes/n answers exactly the stored text; distinct
    names resolve to distinct files; and every entry that is not the file
    [n].txt of a name among the requests is as it was, so no request makes
    a second file for its note.  Names with a separator or NUL are not
    covered. *)
Theorem layout_preserved fs K notes reqs :
  cache_ready cwd cache fs K → wf fs → layout K fs notes →
  forallb valid_request reqs = true →
  status <$> (serve_all cwd cache reqs fs).1 = (spec_run reqs notes).1 ∧
  layout K (serve_all cwd cache reqs fs).2 (spec_run reqs notes).2 ∧
  cache_ready cwd cache (serve_all cwd cache reqs fs).2 K ∧
  wf (serve_all cwd cache reqs fs).2 ∧
  (∀ n, valid_name n = true →
     serve (get_note cwd cache n) (serve_all cwd cache reqs fs).2 =
     (match (spec_run reqs notes).2 !! n with
      | Some t => sent 200 t
      | None => not_found
      end, (serve_all cwd cache reqs fs).2)) ∧
  (∀ n m, valid_name n = true → valid_name m = true →
     resolve cwd (serve_all cwd cache reqs fs).2 (note_path cache n) =
     resolve cwd (serve_all cwd cache reqs fs).2 (note_path cache m) → n = m) ∧
  (∀ k, (∀ n, Some n ∈ request_name <$> reqs → k ≠ (n +:+ ".txt") :: K) →
     (serve_all cwd cache reqs fs).2 !! k = fs !! k).
Proof.
  intros Hready Hwf Hlayout Hvalid.
  destruct (layout_run fs K notes reqs Hready Hwf Hlayout Hvalid)
    as (Hcodes & Hlayout' & Hready' & Hwf').
  split_and!; try done.
  - intros n Hn.
    rewrite serve_get_note, (stored_valid cwd cache _ K), (Hlayout' n Hn) by done.
    by destruct (_ !! n).
  - intros n m Hn Hm.
    rewrite !(resolve_note_path cwd cache _ K) by done.
    intros [= Heq]. by apply txt_inj.
  - intros k Hk. by apply (serve_all_frame fs K).
Qed.

End Layout.

(** ** Names with and without separators *)

Section Names.

Variable cwd : key.
Variable cache : string.

Lemma stored_frame fs fs' K m :
  cache_ready cwd cache fs K → includes slash m = false → dirs_agree fs fs' →
  fs' !! ((m +:+ ".txt") :: K) = fs !! ((m +:+ ".txt") :: K) →
  stored cwd cache fs' m = stored cwd cache fs m.
Proof.
  intros [HK Hdir] Hm%is_name_txt Hagree Hsame. unfold stored.
  destruct (resolve cwd fs (note_path cache m)) as [k|e] eqn:Hk.
  - rewrite (resolve_dirs_agree cwd fs fs' _ k) by done.
    apply (resolve_join_inv cwd fs cache _ K k) in Hk; [|done..]. by subst k.
  - destruct (resolve cwd fs' (note_path cache m)) as [k'|e'] eqn:Hk'; [|done].
    apply (resolve_dirs_agree cwd fs' fs) in Hk'; [|by apply dirs_agree_sym].
    congruence.
Qed.

(** C7, as amended: POST /write does not check that its fields are
    present.  Without [note] the request is refused and no file is
    created: 400 when the file exists, otherwise 500 because the write
    throws.  Without [note_name] the request is served as if the name were
    "undefined". *)
Theorem post_write_missing_fields fs req_body :
  (note req_body = None →
     (serve (post_write cwd cache req_body) fs).2 = fs ∧
     (serve (post_write cwd cache req_body) fs).1 =
       match stored cwd cache fs (default "undefined" (note_name req_body)) with
       | Some _ => sent 400 "Note already exists"
       | None => failed ERR_INVALID_ARG_TYPE
       end ∧
     (status (serve (post_write cwd cache req_body) fs).1 = 400%Z ↔
      is_Some (stored cwd cache fs (default "undefined" (note_name req_body)))) ∧
     (status (serve (post_write cwd cache req_body) fs).1 = 500%Z ↔
      stored cwd cache fs (default "undefined" (note_name req_body)) = None)) ∧
  (note_name req_body = None →
     serve (post_write cwd cache req_body) fs =
     serve (post_write cwd cache {| note_name := Some "undefined"; note := note req_body |}) fs).
Proof.
  split.
  - intros Hnote. rewrite serve_post_write, Hnote. unfold stored, note_path.
    replace (js_add (note_name req_body) ".txt")
      with (default "undefined" (note_name req_body) +:+ ".txt")
      by by destruct (note_name req_body).
    destruct (resolve cwd fs _) as [k|]; simpl.
    + destruct (fs !! k) as [nd|]; simpl; split_and!; try done;
        split; try done; try (by eauto); by intros [? ?].
    + split_and!; try done; split; try done; by intros [? ?].
  - intros Hname. unfold post_write. by rewrite Hname.
Qed.

(** C8, as amended: for a name without separator the path every handler
    builds is the entry [n].txt of the cache directory, GET reads nothing
    but that file, and no handler changes an entry outside the cache
    directory.  Names with separators are not covered. *)
Theorem plain_name_stays_in_cache fs K n :
  cache_ready cwd cache fs K → includes slash n = false →
  inside K ((n +:+ ".txt") :: K) = true ∧
  (∀ k, resolve cwd fs (note_path cache n) = Ok k → k = (n +:+ ".txt") :: K) ∧
  (∀ d, serve (get_note cwd cache n) fs = (sent 200 d, fs) →
        fs !! ((n +:+ ".txt") :: K) = Some (File d)) ∧
  (∀ k', inside K k' = false →
     (∀ req_note, (serve (post_write cwd cache
                     {| note_name := Some n; note := req_note |}) fs).2 !! k' = fs !! k') ∧
     (∀ req_body, (serve (put_note cwd cache n req_body) fs).2 !! k' = fs !! k') ∧
     (serve (delete_note cwd cache n) fs).2 !! k' = fs !! k' ∧
     (serve (get_note cwd cache n) fs).2 !! k' = fs !! k').
Proof.
  intros Hready Hn. pose proof (is_name_txt n Hn) as Hname.
  assert (inside K ((n +:+ ".txt") :: K) = true) as Hin.
  { simpl. by rewrite bool_decide_eq_true_2. }
  assert (∀ k, resolve cwd fs (note_path cache n) = Ok k → k = (n +:+ ".txt") :: K) as Hkey.
  { intros k Hk. destruct Hready. by eapply resolve_join_inv. }
  split_and!; [done|done| |].
  - rewrite serve_get_note. unfold stored. intros d Hget.
    destruct (resolve cwd fs (note_path cache n)) as [k|] eqn:Hk; [|done].
    rewrite <-(Hkey k eq_refl). by destruct (fs !! k) as [[]|]; simplify_eq.
  - intros k' Hout.
    assert (k' ≠ (n +:+ ".txt") :: K) as Hne by (intros ->; congruence).
    split_and!.
    + intros req_note. eapply changes_only_frame; [done..| |done].
      apply (post_write_changes_only cwd cache fs {| note_name := Some n; note := req_note |}).
    + intros req_body. eapply changes_only_frame; [done..| |done].
      apply put_note_changes_only.
    + eapply changes_only_frame; [done..| |done]. apply delete_note_changes_only.
    + by rewrite serve_get_note.
Qed.

(** C10, as amended: for distinct names [n] and [m] without separator,
    Create, Update and Delete of [n] change at most the entry [n].txt of
    the cache directory, and the entry of [m] and what GET /notes/m
    answers stay as they were. *)
Theorem other_notes_untouched fs fs' K n m req_note req_body :
  cache_ready cwd cache fs K →
  includes slash n = false → includes slash m = false → n ≠ m →
  fs' = (serve (post_write cwd cache {| note_name := Some n; note := req_note |}) fs).2 ∨
  fs' = (serve (put_note cwd cache n req_body) fs).2 ∨
  fs' = (serve (delete_note cwd cache n) fs).2 →
  (∀ k', k' ≠ (n +:+ ".txt") :: K → fs' !! k' = fs !! k') ∧
  stored cwd cache fs' m = stored cwd cache fs m ∧
  (serve (get_note cwd cache m) fs').1 = (serve (get_note cwd cache m) fs).1.
Proof.
  intros Hready Hn Hm Hnm Hfs'.
  assert (changes_only cwd fs fs' (note_path cache n)) as Hchange.
  { destruct Hfs' as [->|[->| ->]].
    - apply (post_write_changes_only cwd cache fs {| note_name := Some n; note := req_note |}).
    - apply put_note_changes_only.
    - apply delete_note_changes_only. }
  assert (∀ k', k' ≠ (n +:+ ".txt") :: K → fs' !! k' = fs !! k') as Hframe.
  { intros k' Hne.
    apply (changes_only_frame cwd cache fs fs' K (n +:+ ".txt")); [done| |done..].
    by apply is_name_txt. }
  assert (stored cwd cache fs' m = stored cwd cache fs m) as Hstored.
  { eapply stored_frame; [done..|by eapply changes_only_dirs_agree|].
    apply Hframe. intros [= Heq%txt_inj]. done. }
  split_and!; [done..|]. by rewrite !serve_get_note, Hstored.
Qed.

End Names.

(** ** The claims on concrete file systems *)

Lemma sample_ready : cache_ready sample_cwd "cache" sample_fs sample_cache_key.
Proof. split; vm_compute; reflexivity. Qed.

Lemma sample_wf : wf sample_fs.
Proof. apply wf_check_sound. vm_compute. reflexivity. Qed.

Lemma create_then_read_witness :
  ∃ fs',
    serve (post_write sample_cwd "cache" {| note_name := Some "todo"; note := Some "buy milk" |})
      sample_fs = (sent 201 "Note created", fs') ∧
    serve (get_note sample_cwd "cache" "todo") fs' = (sent 200 "buy milk", fs').
Proof.
  apply (create_then_read sample_cwd "cache" sample_fs sample_cache_key "todo" "buy milk").
  - exact sample_ready.
  - reflexivity.
  - vm_compute. reflexivity.
Defined.

Lemma create_twice_already_exists_witness :
  serve (post_write sample_cwd "cache" {| note_name := Some "dup"; note := Some "b" |})
    (<[at_path ["srv"; "cache"; "dup.txt"] := File "a"]> sample_fs)
    = (sent 400 "Note already exists",
       <[at_path ["srv"; "cache"; "dup.txt"] := File "a"]> sample_fs) ∧
  serve (get_note sample_cwd "cache" "dup")
    (<[at_path ["srv"; "cache"; "dup.txt"] := File "a"]> sample_fs)
    = (sent 200 "a", <[at_path ["srv"; "cache"; "dup.txt"] := File "a"]> sample_fs).
Proof.
  apply (create_twice_already_exists sample_cwd "cache" sample_fs
           (<[at_path ["srv"; "cache"; "dup.txt"] := File "a"]> sample_fs)
           "dup" "a" (Some "b")).
  vm_compute. reflexivity.
Defined.

Lemma update_replaces_content_witness :
  ∃ fs',
    serve (put_note sample_cwd "cache" "x" (Some "world")) sample_fs
      = (sent 200 "Note updated", fs') ∧
    serve (get_note sample_cwd "cache" "x") fs' = (sent 200 "world", fs') ∧
    ("plain" ≠ "" →
       serve (get_note sample_cwd "cache" "x") fs' ≠ (sent 200 ("plain" +:+ "world"), fs') ∧
       serve (get_note sample_cwd "cache" "x") fs' ≠ (sent 200 ("world" +:+ "plain"), fs')).
Proof.
  apply (update_replaces_content sample_cwd "cache" sample_fs "x" "plain" "world").
  vm_compute. reflexivity.
Defined.

Lemma absent_note_not_found_witness :
  (serve (get_note sample_cwd "cache" "nope") sample_fs = (not_found, sample_fs) ∧
   (∀ req_body, serve (put_note sample_cwd "cache" "nope" req_body) sample_fs
                = (not_found, sample_fs)) ∧
   serve (delete_note sample_cwd "cache" "nope") sample_fs = (not_found, sample_fs)) ∧
  (stored sample_cwd "cache" (delete (at_path ["srv"; "cache"; "x.txt"]) sample_fs) "x" = None ∧
   serve (get_note sample_cwd "cache" "x") (delete (at_path ["srv"; "cache"; "x.txt"]) sample_fs)
     = (not_found, delete (at_path ["srv"; "cache"; "x.txt"]) sample_fs) ∧
   serve (delete_note sample_cwd "cache" "x") (delete (at_path ["srv"; "cache"; "x.txt"]) sample_fs)
     = (not_found, delete (at_path ["srv"; "cache"; "x.txt"]) sample_fs)).
Proof.
  split.
  - apply (proj1 (absent_note_not_found sample_cwd "cache" sample_fs "nope")).
    vm_compute. reflexivity.
  - apply (proj2 (absent_note_not_found sample_cwd "cache" sample_fs "x")).
    vm_compute. reflexivity.
Defined.

Lemma list_visible_files_witness :
  ∃ notes,
    serve (get_notes sample_cwd "cache") sample_fs
      = ({| status := 200; payload := Json notes |}, sample_fs) ∧
    notes = omap (listed sample_fs sample_cache_key) (children sample_fs sample_cache_key) ∧
    NoDup (children sample_fs sample_cache_key) ∧
    (∀ f, f ∈ children sample_fs sample_cache_key ↔ is_Some (sample_fs !! (f :: sample_cache_key))) ∧
    (∀ e, e ∈ notes ↔
          ∃ f d, sample_fs !! (f :: sample_cache_key) = Some (File d) ∧
                 startsWith f dot = false ∧ startsWith f underscore = false ∧
                 e = {| name := path_parse_name f; text := d |}) ∧
    ((∀ f, sample_fs !! (f :: sample_cache_key) = None) → notes = []).
Proof.
  apply (list_visible_files sample_cwd "cache" sample_fs sample_cache_key).
  - exact sample_ready.
  - exact sample_wf.
Defined.

Lemma list_names_drop_extension_witness :
  ∃ notes,
    serve (get_notes sample_cwd "cache") sample_fs
      = ({| status := 200; payload := Json notes |}, sample_fs) ∧
    {| name := "x"; text := "plain" |} ∈ notes ∧
    {| name := "x"; text := "markdown" |} ∈ notes.
Proof.
  destruct (list_names_drop_extension sample_cwd "cache" sample_fs sample_cache_key
              sample_ready sample_wf) as (notes & Hget & Hfiles).
  exists notes. split_and!.
  - exact Hget.
  - apply (Hfiles "x.txt" "plain"); reflexivity.
  - apply (Hfiles "x.md" "markdown"); reflexivity.
Defined.

(** On the sample the files x.txt and x.md are both listed under the name
    "x"; the hidden file, the reserved file and the directory are not
    listed. *)
Example sample_listing :
  serve (get_notes sample_cwd "cache") sample_fs =
  ({| status := 200;
      payload := Json [{| name := "x"; text := "plain" |};
                       {| name := "x"; text := "markdown" |}] |}, sample_fs).
Proof. vm_compute. reflexivity. Qed.

Lemma empty_cache_layout : layout sample_cache_key empty_cache_fs ∅.
Proof.
  apply layout_empty. intros f. unfold empty_cache_fs.
  rewrite !lookup_insert_ne by done. by apply lookup_singleton_ne.
Qed.

Lemma one_note_layout : layout sample_cache_key one_note_fs {[ "x" := "plain" ]}.
Proof. apply (layout_insert _ _ ∅ "x" "plain"), empty_cache_layout. Qed.

(** C6 fails as stated: names are not sanitised, so an operation on the
    name "./x" reaches the file of the note "x".  Delete("./x"), which the
    Note Store answers with NotFound, removes that file, and Update("./x")
    rewrites it, while the store still holds the note "x" with its text;
    Create of a name with a NUL character answers 500 and stores nothing
    where the Note Store prescribes 201. *)
Lemma unsanitised_names_break_layout :
  cache_ready sample_cwd "cache" one_note_fs sample_cache_key ∧
  wf one_note_fs ∧
  layout sample_cache_key one_note_fs {[ "x" := "plain" ]} ∧
  status <$> (serve_all sample_cwd "cache" [Delete "./x"; Read "x"] one_note_fs).1
    = [200; 404]%Z ∧
  (spec_run [Delete "./x"; Read "x"] {[ "x" := "plain" ]}).1 = [404; 200]%Z ∧
  (spec_run [Delete "./x"; Read "x"] {[ "x" := "plain" ]}).2 !! "x" = Some "plain" ∧
  (serve_all sample_cwd "cache" [Delete "./x"; Read "x"] one_note_fs).2
    !! (("x" +:+ ".txt") :: sample_cache_key) = None ∧
  ¬ layout sample_cache_key
      (serve_all sample_cwd "cache" [Delete "./x"; Read "x"] one_note_fs).2
      (spec_run [Delete "./x"; Read "x"] {[ "x" := "plain" ]}).2 ∧
  (spec_run [Update "./x" "other"] {[ "x" := "plain" ]}).2 !! "x" = Some "plain" ∧
  (serve_all sample_cwd "cache" [Update "./x" "other"] one_note_fs).2
    !! (("x" +:+ ".txt") :: sample_cache_key) = Some (File "other") ∧
  status <$> (serve_all sample_cwd "cache" [Create nul_name "a"] one_note_fs).1
    = [500]%Z ∧
  (spec_run [Create nul_name "a"] {[ "x" := "plain" ]}).1 = [201]%Z ∧
  (spec_run [Create nul_name "a"] {[ "x" := "plain" ]}).2 !! nul_name = Some "a" ∧
  (serve_all sample_cwd "cache" [Create nul_name "a"] one_note_fs).2 = one_note_fs.
Proof.
  split_and!; try (vm_compute; reflexivity).
  - split; vm_compute; reflexivity.
  - apply wf_check_sound. vm_compute. reflexivity.
  - exact one_note_layout.
  - intros Hlayout. specialize (Hlayout "x" eq_refl).
    vm_compute in Hlayout. discriminate Hlayout.
Qed.

Lemma layout_preserved_witness :
  status <$> (serve_all sample_cwd "cache" sample_session one_note_fs).1
    = (spec_run sample_session {[ "x" := "plain" ]}).1 ∧
  layout sample_cache_key
    (serve_all sample_cwd "cache" sample_session one_note_fs).2
    (spec_run sample_session {[ "x" := "plain" ]}).2 ∧
  cache_ready sample_cwd "cache"
    (serve_all sample_cwd "cache" sample_session one_note_fs).2 sample_cache_key ∧
  wf (serve_all sample_cwd "cache" sample_session one_note_fs).2 ∧
  (∀ n, valid_name n = true →
     serve (get_note sample_cwd "cache" n)
       (serve_all sample_cwd "cache" sample_session one_note_fs).2 =
     (match (spec_run sample_session {[ "x" := "plain" ]}).2 !! n with
      | Some t => sent 200 t
      | None => not_found
      end, (serve_all sample_cwd "cache" sample_session one_note_fs).2)) ∧
  (∀ n m, valid_name n = true → valid_name m = true →
     resolve sample_cwd (serve_all sample_cwd "cache" sample_session one_note_fs).2
       (note_path "cache" n) =
     resolve sample_cwd (serve_all sample_cwd "cache" sample_session one_note_fs).2
       (note_path "cache" m) → n = m) ∧
  (∀ k, (∀ n, Some n ∈ request_name <$> sample_session →
              k ≠ (n +:+ ".txt") :: sample_cache_key) →
     (serve_all sample_cwd "cache" sample_session one_note_fs).2 !! k = one_note_fs !! k).
Proof.
  apply (layout_preserved sample_cwd "cache" one_note_fs sample_cache_key
           {[ "x" := "plain" ]} sample_session).
  - split; vm_compute; reflexivity.
  - apply wf_check_sound. vm_compute. reflexivity.
  - exact one_note_layout.
  - reflexivity.
Defined.

Lemma list_unreadable_cache_witness :
  serve (get_notes sample_cwd "cache") no_cache_fs
  = (sent 500 "Internal Server Error", no_cache_fs).
Proof.
  apply (list_unreadable_cache sample_cwd "cache" no_cache_fs).
  intros K [HK Hdir]. vm_compute in HK. injection HK as <-.
  vm_compute in Hdir. discriminate Hdir.
Defined.

(** The scenarios of the specification, from an empty cache directory. *)
Example scenario_lifecycle :
  (serve_all sample_cwd "cache"
     [Create "foo" "hello"; Read "foo"; Update "foo" "world"; Read "foo";
      Delete "foo"; Read "foo"] empty_cache_fs).1
  = [sent 201 "Note created"; sent 200 "hello"; sent 200 "Note updated";
     sent 200 "world"; sent 200 "Note deleted"; not_found].
Proof. vm_compute. reflexivity. Qed.

Example scenario_duplicate :
  (serve_all sample_cwd "cache"
     [Create "dup" "a"; Create "dup" "b"; Read "dup"] empty_cache_fs).1
  = [sent 201 "Note created"; sent 400 "Note already exists"; sent 200 "a"].
Proof. vm_compute. reflexivity. Qed.

Example scenario_empty_list :
  serve (get_notes sample_cwd "cache") empty_cache_fs
  = ({| status := 200; payload := Json [] |}, empty_cache_fs).
Proof. vm_compute. reflexivity. Qed.

(** C7 fails as stated: a POST /write without [note_name] is not refused,
    it creates the file undefined.txt in the cache directory. *)
Lemma missing_name_creates_undefined :
  sample_fs !! at_path ["srv"; "cache"; "undefined.txt"] = None ∧
  serve (post_write sample_cwd "cache" {| note_name := None; note := Some "a" |}) sample_fs
    = (sent 201 "Note created",
       <[at_path ["srv"; "cache"; "undefined.txt"] := File "a"]> sample_fs).
Proof. split; vm_compute; reflexivity. Qed.

Lemma post_write_missing_fields_witness :
  ((serve (post_write sample_cwd "cache" {| note_name := Some "x"; note := None |})
      sample_fs).2 = sample_fs ∧
   (serve (post_write sample_cwd "cache" {| note_name := Some "x"; note := None |})
      sample_fs).1 = sent 400 "Note already exists") ∧
  ((serve (post_write sample_cwd "cache" {| note_name := Some "todo"; note := None |})
      sample_fs).2 = sample_fs ∧
   (serve (post_write sample_cwd "cache" {| note_name := Some "todo"; note := None |})
      sample_fs).1 = failed ERR_INVALID_ARG_TYPE) ∧
  serve (post_write sample_cwd "cache" {| note_name := None; note := Some "a" |}) sample_fs =
  serve (post_write sample_cwd "cache" {| note_name := Some "undefined"; note := Some "a" |})
    sample_fs.
Proof.
  split_and!.
  - apply (proj1 (post_write_missing_fields sample_cwd "cache" sample_fs
                    {| note_name := Some "x"; note := None |})).
    reflexivity.
  - destruct (proj1 (post_write_missing_fields sample_cwd "cache" sample_fs
                       {| note_name := Some "x"; note := None |}) eq_refl)
      as (_ & Hanswer & _).
    rewrite Hanswer. vm_compute. reflexivity.
  - apply (proj1 (post_write_missing_fields sample_cwd "cache" sample_fs
                    {| note_name := Some "todo"; note := None |})).
    reflexivity.
  - destruct (proj1 (post_write_missing_fields sample_cwd "cache" sample_fs
                       {| note_name := Some "todo"; note := None |}) eq_refl)
      as (_ & Hanswer & _).
    rewrite Hanswer. vm_compute. reflexivity.
  - apply (proj2 (post_write_missing_fields sample_cwd "cache" sample_fs
                    {| note_name := None; note := Some "a" |})).
    reflexivity.
Defined.

(** C8 fails as stated: the name "../secret" makes GET read, PUT overwrite
    and DELETE remove the file /srv/secret.txt, which is not inside the
    cache directory /srv/cache, and "../planted" makes POST create a file
    next to it. *)
Lemma traversal_escapes_cache :
  cache_ready sample_cwd "cache" sample_fs sample_cache_key ∧
  inside sample_cache_key (at_path ["srv"; "secret.txt"]) = false ∧
  inside sample_cache_key (at_path ["srv"; "planted.txt"]) = false ∧
  sample_fs !! at_path ["srv"; "secret.txt"] = Some (File "key") ∧
  sample_fs !! at_path ["srv"; "planted.txt"] = None ∧
  serve (get_note sample_cwd "cache" "../secret") sample_fs = (sent 200 "key", sample_fs) ∧
  serve (put_note sample_cwd "cache" "../secret" (Some "overwritten")) sample_fs
    = (sent 200 "Note updated",
       <[at_path ["srv"; "secret.txt"] := File "overwritten"]> sample_fs) ∧
  serve (delete_note sample_cwd "cache" "../secret") sample_fs
    = (sent 200 "Note deleted", delete (at_path ["srv"; "secret.txt"]) sample_fs) ∧
  serve (post_write sample_cwd "cache" {| note_name := Some "../planted"; note := Some "p" |})
    sample_fs
    = (sent 201 "Note created", <[at_path ["srv"; "planted.txt"] := File "p"]> sample_fs).
Proof. split_and!; [exact sample_ready|vm_compute; reflexivity..]. Qed.

Lemma plain_name_stays_in_cache_witness :
  inside sample_cache_key (("x" +:+ ".txt") :: sample_cache_key) = true ∧
  (∀ k, resolve sample_cwd sample_fs (note_path "cache" "x") = Ok k →
        k = ("x" +:+ ".txt") :: sample_cache_key) ∧
  (∀ d, serve (get_note sample_cwd "cache" "x") sample_fs = (sent 200 d, sample_fs) →
        sample_fs !! (("x" +:+ ".txt") :: sample_cache_key) = Some (File d)) ∧
  (∀ k', inside sample_cache_key k' = false →
     (∀ req_note, (serve (post_write sample_cwd "cache"
                     {| note_name := Some "x"; note := req_note |}) sample_fs).2 !! k'
                  = sample_fs !! k') ∧
     (∀ req_body, (serve (put_note sample_cwd "cache" "x" req_body) sample_fs).2 !! k'
                  = sample_fs !! k') ∧
     (serve (delete_note sample_cwd "cache" "x") sample_fs).2 !! k' = sample_fs !! k' ∧
     (serve (get_note sample_cwd "cache" "x") sample_fs).2 !! k' = sample_fs !! k').
Proof.
  apply (plain_name_stays_in_cache sample_cwd "cache" sample_fs sample_cache_key "x").
  - exact sample_ready.
  - reflexivity.
Defined.

(** C10 fails as stated: "./x" and "x" are distinct names for the same
    file, so Delete("./x") removes the note "x"; likewise Update of
    "sub/../x" rewrites it and Create of "/fresh" creates the note
    "fresh". *)
Lemma aliased_names_share_a_file :
  "./x" ≠ "x" ∧ "sub/../x" ≠ "x" ∧ "/fresh" ≠ "fresh" ∧
  (serve (get_note sample_cwd "cache" "x") sample_fs).1 = sent 200 "plain" ∧
  (serve (get_note sample_cwd "cache" "fresh") sample_fs).1 = not_found ∧
  (serve (get_note sample_cwd "cache" "x")
     (serve (delete_note sample_cwd "cache" "./x") sample_fs).2).1 = not_found ∧
  (serve (get_note sample_cwd "cache" "x")
     (serve (put_note sample_cwd "cache" "sub/../x" (Some "changed")) sample_fs).2).1
    = sent 200 "changed" ∧
  (serve (get_note sample_cwd "cache" "fresh")
     (serve (post_write sample_cwd "cache"
               {| note_name := Some "/fresh"; note := Some "new" |}) sample_fs).2).1
    = sent 200 "new".
Proof. split_and!; try done; vm_compute; reflexivity. Qed.

Lemma other_notes_untouched_witness :
  (∀ k', k' ≠ ("_draft" +:+ ".txt") :: sample_cache_key →
         (serve (delete_note sample_cwd "cache" "_draft") sample_fs).2 !! k' = sample_fs !! k') ∧
  stored sample_cwd "cache" (serve (delete_note sample_cwd "cache" "_draft") sample_fs).2 "x"
    = stored sample_cwd "cache" sample_fs "x" ∧
  (serve (get_note sample_cwd "cache" "x")
     (serve (delete_note sample_cwd "cache" "_draft") sample_fs).2).1
    = (serve (get_note sample_cwd "cache" "x") sample_fs).1.
Proof.
  apply (other_notes_untouched sample_cwd "cache" sample_fs
           (serve (delete_note sample_cwd "cache" "_draft") sample_fs).2
           sample_cache_key "_draft" "x" None None).
  - exact sample_ready.
  - reflexivity.
  - reflexivity.
  - discriminate.
  - right. right. reflexivity.
Defined.

(** * Beyond the claims: start-up *)

(** ** Making the cache directory *)

Lemma only_adds_dirs_refl fs : only_adds_dirs fs fs.
Proof. intros k. by left. Qed.

Lemma only_adds_dirs_insert (fs fs' : gmap key node) k :
  fs !! k = None → only_adds_dirs (<[k := Dir]> fs) fs' → only_adds_dirs fs fs'.
Proof.
  intros Hnone Hgrow k'. destruct (Hgrow k') as [Heq|[Hn Hd]].
  - destruct (decide (k = k')) as [<-|Hne].
    + right. by rewrite Heq, lookup_insert_eq.
    + left. by rewrite Heq, lookup_insert_ne.
  - destruct (decide (k = k')) as [<-|Hne].
    + by rewrite lookup_insert_eq in Hn.
    + right. by rewrite lookup_insert_ne in Hn.
Qed.

Lemma only_adds_dirs_keeps_dir fs fs' k :
  only_adds_dirs fs fs' → fs !! k = Some Dir → fs' !! k = Some Dir.
Proof. intros Hgrow Hk. destruct (Hgrow k) as [->|[Hn _]]; congruence. Qed.

Lemma mkdirp_only_adds_dirs fs cur segs r fs' :
  mkdirp fs cur segs = (r, fs') → only_adds_dirs fs fs'.
Proof.
  revert fs cur. induction segs as [|seg rest IH]; intros fs cur; simpl.
  - intros [= _ <-]. apply only_adds_dirs_refl.
  - destruct (decide (seg = "" ∨ seg = "." ∨ seg = "..")) as [Hspecial|Hname].
    + destruct (fs !! walk_step cur seg) as [[d|]|] eqn:Hnext.
      * intros [= _ <-]. apply only_adds_dirs_refl.
      * apply IH.
      * intros [= _ <-]. apply only_adds_dirs_refl.
    + destruct (fs !! (seg :: cur)) as [[d|]|] eqn:Hnext.
      * intros [= _ <-]. apply only_adds_dirs_refl.
      * apply IH.
      * intros Hrec%IH. by eapply only_adds_dirs_insert.
Qed.

Lemma walk_step_plain cur seg :
  ¬ (seg = "" ∨ seg = "." ∨ seg = "..") → walk_step cur seg = seg :: cur.
Proof.
  intros Hname. unfold walk_step.
  rewrite decide_False by (intros [?|?]; apply Hname; auto).
  rewrite decide_False by (intros ?; apply Hname; auto). done.
Qed.

(** When [mkdirp] returns, the path resolves to a directory. *)
Lemma mkdirp_made fs cur segs fs' :
  mkdirp fs cur segs = (Made, fs') → fs !! cur = Some Dir →
  ∃ K, walk fs' cur segs = Ok K ∧ fs' !! K = Some Dir.
Proof.
  revert fs cur. induction segs as [|seg rest IH]; intros fs cur; simpl.
  - intros [= <-] Hcur. eauto.
  - intros Hmk Hcur.
    pose proof (mkdirp_only_adds_dirs fs cur (seg :: rest) Made fs' Hmk) as Hgrow.
    rewrite (only_adds_dirs_keeps_dir fs fs' cur Hgrow Hcur).
    destruct (decide (seg = "" ∨ seg = "." ∨ seg = "..")) as [Hspecial|Hname].
    + destruct (fs !! walk_step cur seg) as [[d|]|] eqn:Hnext; try done.
      by apply (IH fs).
    + rewrite (walk_step_plain cur seg Hname).
      destruct (fs !! (seg :: cur)) as [[d|]|] eqn:Hnext; try done.
      * by apply (IH fs).
      * apply (IH _ _ Hmk). by rewrite lookup_insert_eq.
Qed.

(** When [mkdirp] throws, the path does not resolve to a directory. *)
Lemma mkdirp_throws fs cur segs fs' K :
  mkdirp fs cur segs = (MkdirThrows, fs') → walk fs' cur segs = Ok K →
  fs' !! K ≠ Some Dir.
Proof.
  revert fs cur. induction segs as [|seg rest IH]; intros fs cur; simpl; [done|].
  intros Hmk Hwalk. destruct (fs' !! cur) as [[|]|] eqn:Hcur; try done.
  assert (∀ next, fs' !! next ≠ Some Dir → walk fs' next rest = Ok K →
                  fs' !! K ≠ Some Dir) as Hstuck.
  { intros next Hnext Hw. destruct rest as [|seg' rest']; simpl in Hw.
    - by injection Hw as <-.
    - by destruct (fs' !! next) as [[|]|]. }
  destruct (decide (seg = "" ∨ seg = "." ∨ seg = "..")) as [Hspecial|Hname].
  - destruct (fs !! walk_step cur seg) as [[d|]|] eqn:Hnext.
    + injection Hmk as <-. eapply Hstuck; [|done]. by rewrite Hnext.
    + by eapply IH.
    + injection Hmk as <-. eapply Hstuck; [|done]. by rewrite Hnext.
  - rewrite (walk_step_plain cur seg Hname) in Hwalk.
    destruct (fs !! (seg :: cur)) as [[d|]|] eqn:Hnext.
    + injection Hmk as <-. eapply Hstuck; [|done]. by rewrite Hnext.
    + by eapply IH.
    + by eapply IH.
Qed.

Lemma cons_neq (x : string) (l : list string) : l ≠ x :: l.
Proof. intros H%(f_equal length). simpl in H. lia. Qed.

Lemma wf_insert_dir (fs : gmap key node) s parent :
  wf fs → is_component s = true → fs !! parent = Some Dir →
  wf (<[s :: parent := Dir]> fs).
Proof.
  intros Hwf Hs Hparent s' k' Hsome.
  assert (fs !! k' = Some Dir → <[s :: parent := Dir]> fs !! k' = Some Dir) as Hkeep.
  { intros Hk'. destruct (decide (s :: parent = k')) as [<-|Hne].
    - by rewrite lookup_insert_eq.
    - by rewrite lookup_insert_ne. }
  destruct (decide (s :: parent = s' :: k')) as [[= <- <-]|Hne].
  - split; [done|]. by apply Hkeep.
  - rewrite lookup_insert_ne in Hsome by done.
    destruct (Hwf s' k' Hsome) as [? Hk']. split; [done|]. by apply Hkeep.
Qed.

Lemma mkdirp_wf fs cur segs r fs' :
  wf fs →
  Forall (λ seg, includes slash seg = false ∧ includes nul seg = false) segs →
  fs !! cur = Some Dir → mkdirp fs cur segs = (r, fs') → wf fs'.
Proof.
  intros Hwf Hsegs. revert fs cur Hwf.
  induction Hsegs as [|seg rest [Hslash Hnul] _ IH]; intros fs cur Hwf Hcur; simpl.
  - by intros [= _ <-].
  - destruct (decide (seg = "" ∨ seg = "." ∨ seg = "..")) as [Hspecial|Hname].
    + destruct (fs !! walk_step cur seg) as [[d|]|] eqn:Hnext.
      * by intros [= _ <-].
      * by apply IH.
      * by intros [= _ <-].
    + destruct (fs !! (seg :: cur)) as [[d|]|] eqn:Hnext.
      * by intros [= _ <-].
      * by apply IH.
      * apply IH; [|by rewrite lookup_insert_eq].
        apply wf_insert_dir; [done| |done].
        apply is_component_spec. split; [|done]. apply is_name_spec.
        split; [|done]. split_and!; intros ->; apply Hname; auto.
Qed.

Lemma omap_all_none {A B} (g : A → option B) (l : list A) :
  Forall (λ x, g x = None) l → omap g l = [].
Proof.
  induction 1 as [|x l Hx _ IH]; simpl; [done|]. by rewrite Hx.
Qed.

Section Startup.

Variable cwd : key.
Variable cache : string.

Lemma mkdirSync_recursive_made fs fs' :
  mkdirSync_recursive cwd cache fs = (Made, fs') →
  ∃ K, cache_ready cwd cache fs' K.
Proof.
  unfold mkdirSync_recursive, cache_ready, resolve. fold (start_of cwd cache).
  destruct (includes nul cache); [done|].
  destruct (decide (cache = "")); [done|].
  destruct (fs !! start_of cwd cache) as [[d|]|] eqn:Hstart; try done.
  intros Hmk. by eapply mkdirp_made.
Qed.

Lemma mkdirSync_recursive_throws fs fs' K :
  mkdirSync_recursive cwd cache fs = (MkdirThrows, fs') →
  ¬ cache_ready cwd cache fs' K.
Proof.
  unfold mkdirSync_recursive, cache_ready, resolve. fold (start_of cwd cache).
  destruct (includes nul cache); [by intros _ [? _]|].
  destruct (decide (cache = "")); [by intros _ [? _]|].
  destruct (split_slash_cons cache) as (x & xs & Hsplit).
  destruct (fs !! start_of cwd cache) as [[d|]|] eqn:Hstart.
  - intros [= <-] [Hwalk _]. rewrite Hsplit in Hwalk. simpl in Hwalk.
    by rewrite Hstart in Hwalk.
  - intros Hmk [Hwalk Hdir]. by eapply mkdirp_throws.
  - intros [= <-] [Hwalk _]. rewrite Hsplit in Hwalk. simpl in Hwalk.
    by rewrite Hstart in Hwalk.
Qed.

Lemma mkdirSync_recursive_only_adds_dirs fs r fs' :
  mkdirSync_recursive cwd cache fs = (r, fs') → only_adds_dirs fs fs'.
Proof.
  unfold mkdirSync_recursive.
  destruct (includes nul cache); [intros [= _ <-]; apply only_adds_dirs_refl|].
  destruct (decide (cache = "")); [intros [= _ <-]; apply only_adds_dirs_refl|].
  destruct (fs !! start_of cwd cache) as [[d|]|];
    [intros [= _ <-]; apply only_adds_dirs_refl| |intros [= _ <-]; apply only_adds_dirs_refl].
  apply mkdirp_only_adds_dirs.
Qed.

Lemma mkdirSync_recursive_wf fs r fs' :
  wf fs → mkdirSync_recursive cwd cache fs = (r, fs') → wf fs'.
Proof.
  intros Hwf. unfold mkdirSync_recursive.
  destruct (includes nul cache) eqn:Hnul; [by intros [= _ <-]|].
  destruct (decide (cache = "")); [by intros [= _ <-]|].
  destruct (fs !! start_of cwd cache) as [[d|]|] eqn:Hstart;
    [by intros [= _ <-]| |by intros [= _ <-]].
  apply mkdirp_wf; [done| |done].
  pose proof (split_slash_excludes slash cache (or_introl eq_refl)) as H1.
  pose proof (split_slash_excludes nul cache (or_intror Hnul)) as H2.
  rewrite Forall_forall in H1, H2. apply Forall_forall. intros seg Hseg. auto.
Qed.

(** What [startup] does, by what [cache] names. *)
Lemma startup_cases fs :
  (∃ K nd, resolve cwd fs cache = Ok K ∧ fs !! K = Some nd ∧
           startup cwd cache fs = (Started None, fs)) ∨
  (existsSync cwd cache fs = (Ok false, fs) ∧
   ∃ fs', (mkdirSync_recursive cwd cache fs = (Made, fs') ∧
           startup cwd cache fs
             = (Started (Some (" Created cache directory: " +:+ cache)), fs')) ∨
          (mkdirSync_recursive cwd cache fs = (MkdirThrows, fs') ∧
           startup cwd cache fs = (Exited 1, fs'))).
Proof.
  unfold startup, existsSync.
  destruct (resolve cwd fs cache) as [K|e] eqn:HK.
  - destruct (fs !! K) as [nd|] eqn:Hnd; simpl.
    + left. by exists K, nd.
    + right. split; [done|].
      destruct (mkdirSync_recursive cwd cache fs) as [[|] fs']; eauto.
  - right. split; [done|].
    destruct (mkdirSync_recursive cwd cache fs) as [[|] fs']; eauto.
Qed.

(** Start-up leaves a usable cache directory, unless [cache] names a
    regular file: then it goes on without one. *)
Theorem startup_makes_cache_ready fs log fs' :
  startup cwd cache fs = (Started log, fs') →
  (∀ K d, resolve cwd fs cache = Ok K → fs !! K ≠ Some (File d)) →
  ∃ K, cache_ready cwd cache fs' K.
Proof.
  intros Hstart Hnofile.
  destruct (startup_cases fs) as [(K & nd & HK & Hnd & Heq)|(_ & fs1 & [[Hmk Heq]|[_ Heq]])];
    rewrite Heq in Hstart; simplify_eq.
  - exists K. split; [done|]. destruct nd as [d|]; [|done].
    by destruct (Hnofile K d HK).
  - by eapply mkdirSync_recursive_made.
Qed.

(** The process exits only with status 1, and only when no cache
    directory could be made: none exists afterwards. *)
Theorem startup_exits_without_cache fs code fs' :
  startup cwd cache fs = (Exited code, fs') →
  code = 1%Z ∧ ∀ K, ¬ cache_ready cwd cache fs' K.
Proof.
  intros Hstart.
  destruct (startup_cases fs) as [(K & nd & HK & Hnd & Heq)|(_ & fs1 & [[Hmk Heq]|[Hmk Heq]])];
    rewrite Heq in Hstart; simplify_eq.
  split; [done|]. intros K. by eapply mkdirSync_recursive_throws.
Qed.

Lemma startup_grows fs outcome fs' :
  startup cwd cache fs = (outcome, fs') →
  only_adds_dirs fs fs' ∧ (wf fs → wf fs').
Proof.
  intros Hstart.
  destruct (startup_cases fs)
    as [(K & nd & HK & Hnd & Heq)|(_ & fs1 & [[Hmk Heq]|[Hmk Heq]])];
    rewrite Heq in Hstart; simplify_eq.
  - split; [apply only_adds_dirs_refl|done].
  - split; [by eapply mkdirSync_recursive_only_adds_dirs|].
    intros Hwf. by eapply mkdirSync_recursive_wf.
  - split; [by eapply mkdirSync_recursive_only_adds_dirs|].
    intros Hwf. by eapply mkdirSync_recursive_wf.
Qed.

(** Start-up never removes or alters an entry: all it adds are
    directories, and a well-formed file system stays well formed. *)
Theorem startup_only_adds_directories fs outcome fs' :
  startup cwd cache fs = (outcome, fs') →
  only_adds_dirs fs fs' ∧
  (∀ k d, fs !! k = Some (File d) → fs' !! k = Some (File d)) ∧
  (∀ k d, fs' !! k = Some (File d) → fs !! k = Some (File d)) ∧
  (wf fs → wf fs').
Proof.
  intros Hstart. destruct (startup_grows fs outcome fs' Hstart) as [Hgrow Hwf].
  split_and!; [done| | |done].
  - intros k d Hk. destruct (Hgrow k) as [->|[Hn _]]; congruence.
  - intros k d Hk. destruct (Hgrow k) as [<-|[_ Hd]]; congruence.
Qed.

(** A second start-up on the state the first one left finds the
    directory and does nothing. *)
Theorem startup_idempotent fs log fs' :
  startup cwd cache fs = (Started log, fs') →
  startup cwd cache fs' = (Started None, fs').
Proof.
  intros Hstart.
  assert (∃ K nd, resolve cwd fs' cache = Ok K ∧ fs' !! K = Some nd) as (K & nd & HK & Hnd).
  { destruct (startup_cases fs)
      as [(K & nd & HK & Hnd & Heq)|(_ & fs1 & [[Hmk Heq]|[Hmk Heq]])];
      rewrite Heq in Hstart; simplify_eq.
    - by exists K, nd.
    - destruct (mkdirSync_recursive_made _ _ Hmk) as (K & HK & Hdir). by exists K, Dir. }
  unfold startup, existsSync. rewrite HK, Hnd. done.
Qed.

(** A cache directory that start-up has just made lists no notes. *)
Theorem new_cache_lists_nothing fs log fs' K :
  wf fs → startup cwd cache fs = (Started log, fs') →
  cache_ready cwd cache fs' K → fs !! K = None →
  serve (get_notes cwd cache) fs' = ({| status := 200; payload := Json [] |}, fs').
Proof.
  intros Hwf Hstart Hready Hnew.
  destruct (startup_grows fs _ fs' Hstart) as [Hgrow Hwf'].
  rewrite (serve_get_notes cwd cache fs' K) by auto.
  rewrite omap_all_none; [done|].
  apply Forall_forall. intros f _. unfold listed.
  destruct (Hgrow (f :: K)) as [Heq|[_ ->]]; [|done].
  rewrite Heq. destruct (fs !! (f :: K)) as [nd|] eqn:Hf; [|done].
  destruct (Hwf f K) as [_ HK]; [by rewrite Hf|]. congruence.
Qed.

End Startup.

(** * Beyond the claims: requests *)

(** ** Paths below a cache path that is no directory, names with NUL *)

Lemma normalize_step_name allow acc f :
  is_name f = true → normalize_step allow acc f = f :: acc.
Proof.
  intros [(Hne & Hd & Hdd) _]%is_name_spec. unfold normalize_step.
  rewrite decide_False by (by intros [?|?]). by rewrite decide_False.
Qed.

Lemma normalizeString_snoc allow segs f :
  is_name f = true →
  normalizeString allow (segs ++ [f]) = normalizeString allow segs ++ [f].
Proof.
  intros Hf. unfold normalizeString. rewrite fold_left_app. simpl.
  by rewrite normalize_step_name.
Qed.

Lemma join_slash_includes_last c l f :
  includes c f = true → includes c (join_slash (l ++ [f])) = true.
Proof.
  intros Hf. induction l as [|x l IH]; [done|].
  destruct (l ++ [f]) as [|y ys] eqn:E; [by destruct l|].
  simpl app. rewrite E, join_slash_cons, includes_app.
  simpl includes at 2. rewrite IH. by destruct (decide (slash = c)), (includes c x).
Qed.

Section JoinExact.

Variable cwd : key.

(** The normal form of [cache/f] for a name [f]: the normalized segments
    of [cache] followed by [f]. *)
Lemma path_join_name cache f :
  cache ≠ "" → is_name f = true →
  start_of cwd (path_join cache f) = start_of cwd cache ∧
  path_join cache f ≠ "" ∧
  ∃ N, N = normalizeString (negb (startsWith cache slash)) (split_slash cache) ∧
       path_join cache f =
         (if startsWith cache slash then String slash (join_slash (N ++ [f]))
          else join_slash (N ++ [f])).
Proof.
  intros Hcache Hf.
  pose proof Hf as [(Hf1 & _ & _) Hplain]%is_name_spec.
  unfold path_join. rewrite decide_False by done. rewrite decide_False by done.
  set (p := cache +:+ "/" +:+ f).
  assert (p ≠ "") as Hp by (unfold p; by destruct cache).
  assert (endsWith p slash = false) as Hend.
  { unfold p. rewrite endsWith_app by done.
    change ("/" +:+ f) with (String slash "" +:+ f).
    rewrite endsWith_app by done. by apply endsWith_includes. }
  assert (startsWith p slash = startsWith cache slash) as Habs.
  { unfold p. by rewrite startsWith_app. }
  destruct (path_normalize_start cwd p Hp Hend) as [Hne Hstart].
  split_and!; [|done|].
  - rewrite Hstart. unfold start_of. by rewrite Habs.
  - eexists. split; [done|]. rewrite path_normalize_eq by done. rewrite Habs.
    unfold p. change ("/" +:+ f) with (String slash f).
    rewrite split_slash_app, (split_slash_plain f) by done.
    rewrite normalizeString_snoc by done.
    by destruct (normalizeString _ _ ++ [f]) eqn:E; [destruct (normalizeString _ _)|].
Qed.

Lemma walk_join_exact fs cache f K :
  cache ≠ "" → is_name f = true →
  walk fs (start_of cwd cache) (split_slash cache) = Ok K →
  walk fs (start_of cwd (path_join cache f)) (split_slash (path_join cache f))
  = walk fs K [f].
Proof.
  intros Hcache Hf HK.
  pose proof Hf as [_ Hplain]%is_name_spec.
  destruct (path_join_name cache f Hcache Hf) as (-> & _ & N & HN & ->).
  assert (fs !! start_of cwd cache = Some Dir) as Hstart.
  { destruct (split_slash_cons cache) as (x & xs & E). rewrite E in HK.
    by eapply walk_first_dir. }
  assert (walk fs (start_of cwd cache) N = Ok K) as HwN.
  { subst N. apply walk_normalizeString; [|done].
    unfold start_of. by destruct (startsWith cache slash). }
  assert (Forall (λ seg, includes slash seg = false) (N ++ [f])) as Hall.
  { apply Forall_app. split; [subst N; apply normalizeString_plain|by constructor]. }
  assert (N ++ [f] ≠ []) as Hne by (by destruct N).
  unfold start_of in *. destruct (startsWith cache slash).
  - change (String slash (join_slash (N ++ [f])))
      with ("" +:+ String slash (join_slash (N ++ [f]))).
    rewrite split_slash_app, split_join_slash by done.
    change (split_slash "" ++ (N ++ [f])) with ("" :: (N ++ [f])).
    cbn [walk]. rewrite Hstart, walk_step_empty. by rewrite walk_app, HwN.
  - rewrite split_join_slash by done. by rewrite walk_app, HwN.
Qed.

(** Below a cache path that resolves to something other than a directory
    no name resolves. *)
Lemma resolve_join_no_dir fs cache f K :
  resolve cwd fs cache = Ok K → fs !! K ≠ Some Dir → is_name f = true →
  ∃ e, resolve cwd fs (path_join cache f) = Throw e.
Proof.
  intros (Hnul & Hcache & HK)%resolve_walk Hnd Hf.
  destruct (resolve cwd fs (path_join cache f)) as [k|e] eqn:Hk; [|by eauto].
  apply resolve_walk in Hk as (_ & _ & Hk).
  rewrite (walk_join_exact fs cache f K) in Hk by done.
  simpl in Hk. by destruct (fs !! K) as [[]|].
Qed.

(** A NUL in a name that is one segment stays in the path. *)
Lemma resolve_join_nul fs cache f :
  cache ≠ "" → is_name f = true → includes nul f = true →
  resolve cwd fs (path_join cache f) = Throw ERR_INVALID_ARG_VALUE.
Proof.
  intros Hcache Hf Hnul.
  destruct (path_join_name cache f Hcache Hf) as (_ & _ & N & _ & Heq).
  unfold resolve. rewrite Heq.
  pose proof (join_slash_includes_last nul N f Hnul) as Hin.
  destruct (startsWith cache slash); simpl; by rewrite Hin.
Qed.

End JoinExact.

(** ** What requests change and what they leave alone *)

Section Requests.

Variable cwd : key.
Variable cache : string.

Lemma notes_loop_read_only fs files notes :
  (notes_loop cwd cache files notes fs).2 = fs.
Proof.
  revert notes. induction files as [|file files IH]; intros notes; simpl; [done|].
  unfold mbind, M_bind, lstatSync_isFile, readFileSync.
  destruct (resolve cwd fs _) as [k|] eqn:Hk; [|done].
  destruct (fs !! k) as [[d|]|] eqn:Hlook; simpl; [|apply IH|done].
  destruct (_ && _); [|apply IH]. rewrite Hk, Hlook. apply IH.
Qed.

Lemma get_notes_read_only fs : (serve (get_notes cwd cache) fs).2 = fs.
Proof.
  unfold serve, get_notes, try_catch, mbind, M_bind, readdirSync.
  destruct (resolve cwd fs cache) as [K|]; [|done].
  destruct (fs !! K) as [[]|]; try done.
  pose proof (notes_loop_read_only fs (children fs K) []) as Hloop.
  destruct (notes_loop _ _ _ _ _) as [[notes|e] fs0]; simpl in *; by subst.
Qed.

Lemma route_changes_only fs req :
  ∃ p, changes_only cwd fs (serve (route cwd cache req) fs).2 p.
Proof.
  destruct req as [req_body|n|n req_body|n|]; simpl.
  - eexists. apply post_write_changes_only.
  - exists "". left. by rewrite serve_get_note.
  - eexists. apply put_note_changes_only.
  - eexists. apply delete_note_changes_only.
  - exists "". left. apply get_notes_read_only.
Qed.

(** The file system changes only with a POST answered 201, a PUT with a
    string body answered 200 or a DELETE answered 200: a GET and a request
    answered with an error leave it as it is. *)
Theorem only_successful_writes_change fs req :
  (serve (route cwd cache req) fs).2 ≠ fs →
  (∃ req_body, req = POST_write req_body ∧
     (serve (route cwd cache req) fs).1 = sent 201 "Note created") ∨
  (∃ n d, req = PUT_note n (Some d) ∧
     (serve (route cwd cache req) fs).1 = sent 200 "Note updated") ∨
  (∃ n, req = DELETE_note n ∧
     (serve (route cwd cache req) fs).1 = sent 200 "Note deleted").
Proof.
  destruct req as [req_body|n|n req_body|n|]; simpl.
  - rewrite serve_post_write. intros Hchanged. left. exists req_body. split; [done|].
    repeat case_match; simpl in *; done.
  - rewrite serve_get_note. done.
  - rewrite serve_put_note. intros Hchanged. right. left.
    repeat case_match; simpl in *; try done. eauto.
  - rewrite serve_delete_note. intros Hchanged. right. right. exists n. split; [done|].
    repeat case_match; simpl in *; done.
  - by rewrite get_notes_read_only.
Qed.

(** No request creates, removes or replaces a directory, so paths keep
    resolving as before, the cache directory outlives every request and a
    well-formed file system stays well formed. *)
Theorem requests_keep_directories fs req :
  dirs_agree fs (serve (route cwd cache req) fs).2 ∧
  (∀ p k, resolve cwd fs p = Ok k →
          resolve cwd (serve (route cwd cache req) fs).2 p = Ok k) ∧
  (∀ K, cache_ready cwd cache fs K →
        cache_ready cwd cache (serve (route cwd cache req) fs).2 K) ∧
  (wf fs → wf (serve (route cwd cache req) fs).2).
Proof.
  destruct (route_changes_only fs req) as [p Hchange].
  pose proof (changes_only_dirs_agree cwd fs _ p Hchange) as Hagree.
  split_and!.
  - done.
  - intros q k. by apply resolve_dirs_agree.
  - intros K. by eapply changes_only_cache_ready.
  - by eapply changes_only_wf.
Qed.

(** When <cache>/<n>.txt is a directory, POST takes the note for existing
    (400) and GET, PUT and DELETE fail with 500; nothing changes. *)
Theorem directory_in_place_of_note fs n :
  stored cwd cache fs n = Some Dir →
  (∀ req_note, serve (post_write cwd cache {| note_name := Some n; note := req_note |}) fs
               = (sent 400 "Note already exists", fs)) ∧
  (serve (get_note cwd cache n) fs).2 = fs ∧
  status (serve (get_note cwd cache n) fs).1 = 500%Z ∧
  (∀ req_body, (serve (put_note cwd cache n req_body) fs).2 = fs ∧
               status (serve (put_note cwd cache n req_body) fs).1 = 500%Z) ∧
  (serve (delete_note cwd cache n) fs).2 = fs ∧
  status (serve (delete_note cwd cache n) fs).1 = 500%Z.
Proof.
  intros Hdir. pose proof Hdir as Hstored. unfold stored in Hdir.
  destruct (resolve cwd fs (note_path cache n)) as [k|] eqn:Hk; [|done].
  split_and!.
  - intros req_note. rewrite serve_post_write. simpl. fold (note_path cache n).
    by rewrite Hk, Hdir.
  - by rewrite serve_get_note.
  - by rewrite serve_get_note, Hstored.
  - intros req_body. rewrite serve_put_note, Hk, Hdir. by destruct req_body.
  - by rewrite serve_delete_note, Hk, Hdir.
  - by rewrite serve_delete_note, Hk, Hdir.
Qed.

(** Deleting a note that was just created gives back the file system as
    it was before the creation. *)
Theorem create_then_delete_restores fs fs1 n t :
  serve (post_write cwd cache {| note_name := Some n; note := Some t |}) fs
    = (sent 201 "Note created", fs1) →
  serve (delete_note cwd cache n) fs1 = (sent 200 "Note deleted", fs).
Proof.
  intros (k & d & Hk & Hd & Hnone & ->)%post_write_created.
  simpl in Hk. fold (note_path cache n) in Hk.
  rewrite serve_delete_note.
  rewrite (resolve_dirs_agree cwd fs _ _ k); [|apply dirs_agree_insert_file; congruence|done].
  rewrite lookup_insert_eq, delete_insert_eq. by rewrite delete_id.
Qed.

(** In a well-formed file system a deleted note can be created again, and
    Delete followed by Create ends where Update alone would have ended. *)
Theorem delete_then_create_is_update fs fs1 n t :
  wf fs → fs !! [] = Some Dir →
  serve (delete_note cwd cache n) fs = (sent 200 "Note deleted", fs1) →
  ∃ fs2,
    serve (post_write cwd cache {| note_name := Some n; note := Some t |}) fs1
      = (sent 201 "Note created", fs2) ∧
    serve (put_note cwd cache n (Some t)) fs = (sent 200 "Note updated", fs2) ∧
    serve (get_note cwd cache n) fs2 = (sent 200 t, fs2).
Proof.
  intros Hwf Hroot (k & d & Hk & Hd & ->)%delete_note_deleted.
  exists (<[k := File t]> fs).
  assert (fs !! k ≠ Some Dir) as Hnd by congruence.
  split_and!.
  - rewrite serve_post_write. simpl. fold (note_path cache n).
    rewrite (resolve_dirs_agree cwd fs _ _ k); [|by eapply dirs_agree_delete_file|done].
    rewrite lookup_delete_eq.
    destruct k as [|s parent]; [congruence|].
    destruct (Hwf s parent) as [_ Hparent]; [by rewrite Hd|].
    rewrite lookup_delete_ne by (intros Heq; rewrite <-Heq in Hparent; congruence).
    by rewrite Hparent, insert_delete_eq.
  - by rewrite serve_put_note, Hk, Hd.
  - by rewrite serve_get_note, (stored_insert_file cwd cache fs n k t).
Qed.

(** Of two updates in a row only the second is kept: the state is the one
    the second update alone would have produced. *)
Theorem update_twice_last_wins fs fs1 n t1 t2 :
  serve (put_note cwd cache n (Some t1)) fs = (sent 200 "Note updated", fs1) →
  ∃ fs2,
    serve (put_note cwd cache n (Some t2)) fs1 = (sent 200 "Note updated", fs2) ∧
    serve (put_note cwd cache n (Some t2)) fs = (sent 200 "Note updated", fs2) ∧
    serve (get_note cwd cache n) fs2 = (sent 200 t2, fs2).
Proof.
  rewrite serve_put_note.
  destruct (resolve cwd fs (note_path cache n)) as [k|] eqn:Hk; [|done].
  destruct (fs !! k) as [[d|]|] eqn:Hd; try done.
  intros [= <-]. exists (<[k := File t2]> fs).
  assert (fs !! k ≠ Some Dir) as Hnd by congruence.
  split_and!.
  - rewrite serve_put_note.
    rewrite (resolve_dirs_agree cwd fs _ _ k); [|by apply dirs_agree_insert_file|done].
    by rewrite lookup_insert_eq, insert_insert_eq.
  - by rewrite serve_put_note, Hk, Hd.
  - by rewrite serve_get_note, (stored_insert_file cwd cache fs n k t2).
Qed.

End Requests.

(** ** Listing a note that was just created *)

Lemma path_parse_name_startsWith f c :
  startsWith (path_parse_name f) c = startsWith f c.
Proof.
  unfold path_parse_name. destruct (last_index dot f) as [[|i]|]; try done.
  case_decide; [done|]. by destruct f.
Qed.

Lemma path_parse_name_nonempty f : f ≠ "" → path_parse_name f ≠ "".
Proof.
  intros Hf. unfold path_parse_name. destruct (last_index dot f) as [[|i]|]; try done.
  case_decide; [done|]. by destruct f.
Qed.

Lemma path_parse_name_txt n :
  n ≠ "" → startsWith n dot = false → path_parse_name (n +:+ ".txt") = n.
Proof.
  intros Hn Hdot. apply (path_parse_name_ext n "txt"); [|done].
  change ("." +:+ "txt") with ".txt". by rewrite startsWith_app.
Qed.

Section CreatedNotes.

Variable cwd : key.
Variable cache : string.

(** After Create(n, t) the listing shows the note under its own name
    exactly when [n] is not empty and starts with neither '.' nor '_': a
    note named _x or .x is stored and can be read, but is never listed. *)
Theorem created_note_listed_iff_visible fs K n t :
  cache_ready cwd cache fs K → wf fs → valid_name n = true →
  stored cwd cache fs n = None →
  ∃ fs' notes,
    serve (post_write cwd cache {| note_name := Some n; note := Some t |}) fs
      = (sent 201 "Note created", fs') ∧
    serve (get_note cwd cache n) fs' = (sent 200 t, fs') ∧
    serve (get_notes cwd cache) fs' = ({| status := 200; payload := Json notes |}, fs') ∧
    ({| name := n; text := t |} ∈ notes ↔
       n ≠ "" ∧ startsWith n dot = false ∧ startsWith n underscore = false).
Proof.
  intros Hready Hwf Hn Habsent.
  pose proof (resolve_note_path cwd cache fs K n Hready Hn) as Hk.
  rewrite (stored_valid cwd cache fs K) in Habsent by done.
  set (fs1 := <[(n +:+ ".txt") :: K := File t]> fs).
  assert (serve (post_write cwd cache {| note_name := Some n; note := Some t |}) fs
          = (sent 201 "Note created", fs1)) as Hpost.
  { rewrite serve_post_write. simpl. fold (note_path cache n).
    destruct Hready as [_ Hdir]. by rewrite Hk, Habsent, Hdir. }
  pose proof (post_write_changes_only cwd cache fs
                {| note_name := Some n; note := Some t |}) as Hchange.
  rewrite Hpost in Hchange. simpl in Hchange.
  pose proof (changes_only_cache_ready cwd cache _ _ _ K Hchange Hready) as Hready1.
  pose proof (changes_only_wf cwd _ _ _ Hchange Hwf) as Hwf1.
  assert (fs1 !! ((n +:+ ".txt") :: K) = Some (File t)) as Hfile.
  { unfold fs1. by rewrite lookup_insert_eq. }
  exists fs1, (omap (listed fs1 K) (children fs1 K)). split_and!.
  - done.
  - by rewrite serve_get_note, (stored_valid cwd cache fs1 K), Hfile.
  - by apply serve_get_notes.
  - rewrite elem_of_listed. split.
    + intros (f & d & Hf%elem_of_children & _ & Hdot & Hunder & [= Hname _]).
      destruct (Hwf1 f K Hf) as [[[(Hne & _) _]%is_name_spec _]%is_component_spec _].
      rewrite Hname. split_and!.
      * by apply path_parse_name_nonempty.
      * by rewrite path_parse_name_startsWith.
      * by rewrite path_parse_name_startsWith.
    + intros (Hne & Hdot & Hunder). exists (n +:+ ".txt"), t. split_and!.
      * apply elem_of_children. by rewrite Hfile.
      * done.
      * by rewrite startsWith_app.
      * by rewrite startsWith_app.
      * by rewrite path_parse_name_txt.
Qed.

(** ** Names with NUL, and a cache path that is no directory *)

(** A name without separator that contains NUL reaches no file: POST
    fails with 500, GET, PUT and DELETE answer 404, nothing changes. *)
Theorem nul_name_reaches_no_file fs n :
  cache ≠ "" → includes slash n = false → includes nul n = true →
  (∀ req_note,
     (serve (post_write cwd cache {| note_name := Some n; note := req_note |}) fs).2 = fs ∧
     status (serve (post_write cwd cache {| note_name := Some n; note := req_note |}) fs).1
       = 500%Z) ∧
  serve (get_note cwd cache n) fs = (not_found, fs) ∧
  (∀ req_body, serve (put_note cwd cache n req_body) fs = (not_found, fs)) ∧
  serve (delete_note cwd cache n) fs = (not_found, fs).
Proof.
  intros Hcache Hslash Hnul.
  assert (resolve cwd fs (note_path cache n) = Throw ERR_INVALID_ARG_VALUE) as Hk.
  { apply resolve_join_nul; [done|by apply is_name_txt|].
    by rewrite includes_app, Hnul. }
  split_and!.
  - intros req_note. rewrite serve_post_write. simpl. fold (note_path cache n).
    rewrite Hk. by destruct req_note.
  - rewrite serve_get_note. unfold stored. by rewrite Hk.
  - intros req_body. by rewrite serve_put_note, Hk.
  - by rewrite serve_delete_note, Hk.
Qed.

(** When [cache] names something that is no directory (a regular file, or
    nothing any more), the service does not make the directory: the
    listing answers 500, every POST for a name without separator fails
    with 500, GET, PUT and DELETE answer 404, and nothing changes.
    Start-up itself accepts a regular file as [cache]. *)
Theorem cache_not_a_directory fs K n :
  resolve cwd fs cache = Ok K → fs !! K ≠ Some Dir → includes slash n = false →
  serve (get_notes cwd cache) fs = (sent 500 "Internal Server Error", fs) ∧
  (∀ req_note,
     (serve (post_write cwd cache {| note_name := Some n; note := req_note |}) fs).2 = fs ∧
     status (serve (post_write cwd cache {| note_name := Some n; note := req_note |}) fs).1
       = 500%Z) ∧
  serve (get_note cwd cache n) fs = (not_found, fs) ∧
  (∀ req_body, serve (put_note cwd cache n req_body) fs = (not_found, fs)) ∧
  serve (delete_note cwd cache n) fs = (not_found, fs) ∧
  (∀ d, fs !! K = Some (File d) → startup cwd cache fs = (Started None, fs)).
Proof.
  intros HK Hnd Hslash.
  destruct (resolve_join_no_dir cwd fs cache (n +:+ ".txt") K HK Hnd (is_name_txt n Hslash))
    as [e Hk].
  fold (note_path cache n) in Hk. split_and!.
  - unfold serve, get_notes, try_catch, mbind, M_bind, readdirSync. rewrite HK.
    by destruct (fs !! K) as [[]|].
  - intros req_note. rewrite serve_post_write. simpl. fold (note_path cache n).
    rewrite Hk. by destruct req_note.
  - rewrite serve_get_note. unfold stored. by rewrite Hk.
  - intros req_body. by rewrite serve_put_note, Hk.
  - by rewrite serve_delete_note, Hk.
  - intros d Hd. unfold startup, existsSync. by rewrite HK, Hd.
Qed.

End CreatedNotes.

(** ** Requests about different notes *)

Lemma apply_change_lookup_ne (c : option (option node)) (k k' : key)
  (fs : gmap key node) :
  k ≠ k' → apply_change c k fs !! k' = fs !! k'.
Proof.
  intros Hne. destruct c as [[nd|]|]; simpl; [|by rewrite lookup_delete_ne|done].
  by rewrite lookup_insert_ne.
Qed.

Lemma apply_change_commute (c c' : option (option node)) (k k' : key)
  (fs : gmap key node) :
  k ≠ k' →
  apply_change c k (apply_change c' k' fs) = apply_change c' k' (apply_change c k fs).
Proof.
  intros Hne. destruct c as [[nd|]|], c' as [[nd'|]|]; simpl; try done.
  - by apply insert_insert_ne.
  - by rewrite insert_delete_ne.
  - by rewrite delete_insert_ne.
  - apply delete_delete.
Qed.

Section DistinctNames.

Variable cwd : key.
Variable cache : string.

(** For a name that is one segment, the answer and the change depend on
    the file system only through the entry of that name in the cache
    directory. *)
Lemma request_on_entry fs K n req :
  cache_ready cwd cache fs K → includes slash n = false → target req = Some n →
  ∃ r c, ∀ fs2,
    cache_ready cwd cache fs2 K →
    fs2 !! ((n +:+ ".txt") :: K) = fs !! ((n +:+ ".txt") :: K) →
    serve (route cwd cache req) fs2 = (r, apply_change c ((n +:+ ".txt") :: K) fs2).
Proof.
  intros Hready Hslash Htarget.
  assert (cache ≠ "") as Hcache.
  { destruct Hready as [(_ & ? & _)%resolve_walk _]. done. }
  assert (∃ req_note,
            route cwd cache req = post_write cwd cache {| note_name := Some n; note := req_note |}
          ∨ route cwd cache req = get_note cwd cache n
          ∨ route cwd cache req = put_note cwd cache n req_note
          ∨ route cwd cache req = delete_note cwd cache n) as [req_note Hroute].
  { destruct req as [[[n'|] req_note]|n'|n' req_body|n'|]; simpl in *; simplify_eq.
    - exists req_note. by left.
    - exists req_note. by left.
    - exists None. by right; left.
    - exists req_body. by right; right; left.
    - exists None. by right; right; right. }
  destruct (includes nul n) eqn:Hnul.
  - assert (∀ fs2, resolve cwd fs2 (note_path cache n) = Throw ERR_INVALID_ARG_VALUE) as Hk.
    { intros fs2. apply resolve_join_nul; [done|by apply is_name_txt|].
      by rewrite includes_app, Hnul. }
    destruct Hroute as [->|[->|[->| ->]]].
    + exists (match req_note with
              | None => failed ERR_INVALID_ARG_TYPE
              | Some _ => failed ERR_INVALID_ARG_VALUE
              end), None.
      intros fs2 _ _. rewrite serve_post_write. simpl. fold (note_path cache n).
      rewrite Hk. by destruct req_note.
    + exists not_found, None. intros fs2 _ _. rewrite serve_get_note. unfold stored.
      by rewrite Hk.
    + exists not_found, None. intros fs2 _ _. by rewrite serve_put_note, Hk.
    + exists not_found, None. intros fs2 _ _. by rewrite serve_delete_note, Hk.
  - assert (valid_name n = true) as Hvalid by (by apply valid_name_spec).
    assert (∀ fs2, cache_ready cwd cache fs2 K →
              resolve cwd fs2 (note_path cache n) = Ok ((n +:+ ".txt") :: K) ∧
              fs2 !! K = Some Dir) as Hk.
    { intros fs2 Hready2. split; [by apply resolve_note_path|by destruct Hready2]. }
    destruct (fs !! ((n +:+ ".txt") :: K)) as [[d0|]|] eqn:Hcur;
      destruct Hroute as [->|[->|[->| ->]]].
    + exists (sent 400 "Note already exists"), None. intros fs2 [Hk2 Hdir2]%Hk Hsame.
      rewrite serve_post_write. simpl. fold (note_path cache n). by rewrite Hk2, Hsame.
    + exists (sent 200 d0), None. intros fs2 [Hk2 Hdir2]%Hk Hsame.
      rewrite serve_get_note. unfold stored. by rewrite Hk2, Hsame.
    + destruct req_note as [d|].
      * exists (sent 200 "Note updated"), (Some (Some (File d))).
        intros fs2 [Hk2 Hdir2]%Hk Hsame. by rewrite serve_put_note, Hk2, Hsame.
      * exists (failed ERR_INVALID_ARG_TYPE), None.
        intros fs2 [Hk2 Hdir2]%Hk Hsame. by rewrite serve_put_note, Hk2, Hsame.
    + exists (sent 200 "Note deleted"), (Some None).
      intros fs2 [Hk2 Hdir2]%Hk Hsame. by rewrite serve_delete_note, Hk2, Hsame.
    + exists (sent 400 "Note already exists"), None. intros fs2 [Hk2 Hdir2]%Hk Hsame.
      rewrite serve_post_write. simpl. fold (note_path cache n). by rewrite Hk2, Hsame.
    + exists (failed EISDIR), None. intros fs2 [Hk2 Hdir2]%Hk Hsame.
      rewrite serve_get_note. unfold stored. by rewrite Hk2, Hsame.
    + exists (match req_note with
              | None => failed ERR_INVALID_ARG_TYPE
              | Some _ => failed EISDIR
              end), None.
      intros fs2 [Hk2 Hdir2]%Hk Hsame. rewrite serve_put_note, Hk2, Hsame.
      by destruct req_note.
    + exists (failed EISDIR), None. intros fs2 [Hk2 Hdir2]%Hk Hsame.
      by rewrite serve_delete_note, Hk2, Hsame.
    + destruct req_note as [d|].
      * exists (sent 201 "Note created"), (Some (Some (File d))).
        intros fs2 [Hk2 Hdir2]%Hk Hsame.
        rewrite serve_post_write. simpl. fold (note_path cache n).
        by rewrite Hk2, Hsame, Hdir2.
      * exists (failed ERR_INVALID_ARG_TYPE), None. intros fs2 [Hk2 Hdir2]%Hk Hsame.
        rewrite serve_post_write. simpl. fold (note_path cache n).
        by rewrite Hk2, Hsame.
    + exists not_found, None. intros fs2 [Hk2 Hdir2]%Hk Hsame.
      rewrite serve_get_note. unfold stored. by rewrite Hk2, Hsame.
    + exists not_found, None. intros fs2 [Hk2 Hdir2]%Hk Hsame.
      by rewrite serve_put_note, Hk2, Hsame.
    + exists not_found, None. intros fs2 [Hk2 Hdir2]%Hk Hsame.
      by rewrite serve_delete_note, Hk2, Hsame.
Qed.

(** Requests about two different names without separator do not see each
    other: each gets the answer it would have got alone, and both orders
    end in the same file system. *)
Theorem requests_on_distinct_names_commute fs K n m a b :
  cache_ready cwd cache fs K →
  includes slash n = false → includes slash m = false → n ≠ m →
  target a = Some n → target b = Some m →
  (serve (route cwd cache b) (serve (route cwd cache a) fs).2).1
    = (serve (route cwd cache b) fs).1 ∧
  (serve (route cwd cache a) (serve (route cwd cache b) fs).2).1
    = (serve (route cwd cache a) fs).1 ∧
  (serve (route cwd cache b) (serve (route cwd cache a) fs).2).2
    = (serve (route cwd cache a) (serve (route cwd cache b) fs).2).2.
Proof.
  intros Hready Hn Hm Hnm Ha Hb.
  destruct (request_on_entry fs K n a Hready Hn Ha) as (ra & ca & Hra).
  destruct (request_on_entry fs K m b Hready Hm Hb) as (rb & cb & Hrb).
  assert ((n +:+ ".txt") :: K ≠ (m +:+ ".txt") :: K) as Hne.
  { intros [= Heq%txt_inj]. done. }
  assert (∀ req, cache_ready cwd cache (serve (route cwd cache req) fs).2 K) as Hkeep.
  { intros req. destruct (route_changes_only cwd cache fs req) as [p Hchange].
    by eapply changes_only_cache_ready. }
  pose proof (Hkeep a) as Hready_a. pose proof (Hkeep b) as Hready_b.
  rewrite (Hra fs Hready eq_refl) in *. rewrite (Hrb fs Hready eq_refl) in *.
  simpl in *.
  rewrite (Hrb (apply_change ca _ fs)); [|done|by apply apply_change_lookup_ne].
  rewrite (Hra (apply_change cb _ fs)); [|done|by apply apply_change_lookup_ne].
  simpl. split_and!; [done..|]. by apply apply_change_commute.
Qed.

End DistinctNames.

(** ** Reading and listing agree *)

Section ReadAndList.

Variable cwd : key.
Variable cache : string.

(** A note that GET /notes/n returns, under a name that is not empty and
    starts with neither '.' nor '_', is in the listing with the same
    text. *)
Theorem readable_note_is_listed fs K n d :
  cache_ready cwd cache fs K → wf fs → valid_name n = true →
  n ≠ "" → startsWith n dot = false → startsWith n underscore = false →
  serve (get_note cwd cache n) fs = (sent 200 d, fs) →
  ∃ notes,
    serve (get_notes cwd cache) fs = ({| status := 200; payload := Json notes |}, fs) ∧
    {| name := n; text := d |} ∈ notes.
Proof.
  intros Hready Hwf Hn Hne Hdot Hunder.
  rewrite serve_get_note, (stored_valid cwd cache fs K) by done. intros Hget.
  assert (fs !! ((n +:+ ".txt") :: K) = Some (File d)) as Hfile.
  { destruct (fs !! ((n +:+ ".txt") :: K)) as [[d0|]|]; by simplify_eq. }
  exists (omap (listed fs K) (children fs K)). split; [by apply serve_get_notes|].
  apply elem_of_listed. exists (n +:+ ".txt"), d. split_and!.
  - apply elem_of_children. by rewrite Hfile.
  - done.
  - by rewrite startsWith_app.
  - by rewrite startsWith_app.
  - by rewrite path_parse_name_txt.
Qed.

End ReadAndList.

(** ** The further properties on concrete file systems *)

Lemma startup_makes_cache_ready_witness :
  ∃ K, cache_ready sample_cwd "data/notes"
         (<[at_path ["srv"; "data"; "notes"] := Dir]>
            (<[at_path ["srv"; "data"] := Dir]> no_cache_fs)) K.
Proof.
  apply (startup_makes_cache_ready sample_cwd "data/notes" no_cache_fs
           (Some " Created cache directory: data/notes")).
  - vm_compute. reflexivity.
  - intros K d HK. vm_compute in HK. discriminate HK.
Defined.

Lemma startup_exits_without_cache_witness :
  1%Z = 1%Z ∧ ∀ K, ¬ cache_ready sample_cwd "secret.txt/notes" sample_fs K.
Proof.
  apply (startup_exits_without_cache sample_cwd "secret.txt/notes" sample_fs 1 sample_fs).
  vm_compute. reflexivity.
Defined.

Lemma startup_only_adds_directories_witness :
  only_adds_dirs no_cache_fs empty_cache_fs ∧
  (∀ k d, no_cache_fs !! k = Some (File d) → empty_cache_fs !! k = Some (File d)) ∧
  (∀ k d, empty_cache_fs !! k = Some (File d) → no_cache_fs !! k = Some (File d)) ∧
  (wf no_cache_fs → wf empty_cache_fs).
Proof.
  apply (startup_only_adds_directories sample_cwd "cache" no_cache_fs
           (Started (Some " Created cache directory: cache"))).
  vm_compute. reflexivity.
Defined.

Lemma startup_idempotent_witness :
  startup sample_cwd "cache" empty_cache_fs = (Started None, empty_cache_fs).
Proof.
  apply (startup_idempotent sample_cwd "cache" no_cache_fs
           (Some " Created cache directory: cache")).
  vm_compute. reflexivity.
Defined.

Lemma new_cache_lists_nothing_witness :
  serve (get_notes sample_cwd "cache") empty_cache_fs
  = ({| status := 200; payload := Json [] |}, empty_cache_fs).
Proof.
  apply (new_cache_lists_nothing sample_cwd "cache" no_cache_fs
           (Some " Created cache directory: cache") empty_cache_fs sample_cache_key).
  - apply wf_check_sound. vm_compute. reflexivity.
  - vm_compute. reflexivity.
  - split; vm_compute; reflexivity.
  - vm_compute. reflexivity.
Defined.

Lemma only_successful_writes_change_witness :
  (∃ req_body, DELETE_note "x" = POST_write req_body ∧
     (serve (route sample_cwd "cache" (DELETE_note "x")) sample_fs).1
       = sent 201 "Note created") ∨
  (∃ n d, DELETE_note "x" = PUT_note n (Some d) ∧
     (serve (route sample_cwd "cache" (DELETE_note "x")) sample_fs).1
       = sent 200 "Note updated") ∨
  (∃ n, DELETE_note "x" = DELETE_note n ∧
     (serve (route sample_cwd "cache" (DELETE_note "x")) sample_fs).1
       = sent 200 "Note deleted").
Proof.
  apply (only_successful_writes_change sample_cwd "cache" sample_fs (DELETE_note "x")).
  intros Heq. apply (f_equal (λ m : gmap key node, m !! at_path ["srv"; "cache"; "x.txt"])) in Heq.
  vm_compute in Heq. discriminate Heq.
Defined.

Lemma requests_keep_directories_witness :
  wf (serve (route sample_cwd "cache" (DELETE_note "../secret")) sample_fs).2 ∧
  cache_ready sample_cwd "cache"
    (serve (route sample_cwd "cache" (DELETE_note "../secret")) sample_fs).2 sample_cache_key.
Proof.
  destruct (requests_keep_directories sample_cwd "cache" sample_fs (DELETE_note "../secret"))
    as (_ & _ & Hready & Hwf).
  split.
  - apply Hwf. exact sample_wf.
  - apply Hready. exact sample_ready.
Defined.

Lemma directory_in_place_of_note_witness :
  (∀ req_note, serve (post_write sample_cwd "cache"
                        {| note_name := Some "d"; note := req_note |}) dir_note_fs
               = (sent 400 "Note already exists", dir_note_fs)) ∧
  (serve (get_note sample_cwd "cache" "d") dir_note_fs).2 = dir_note_fs ∧
  status (serve (get_note sample_cwd "cache" "d") dir_note_fs).1 = 500%Z ∧
  (∀ req_body, (serve (put_note sample_cwd "cache" "d" req_body) dir_note_fs).2 = dir_note_fs ∧
               status (serve (put_note sample_cwd "cache" "d" req_body) dir_note_fs).1 = 500%Z) ∧
  (serve (delete_note sample_cwd "cache" "d") dir_note_fs).2 = dir_note_fs ∧
  status (serve (delete_note sample_cwd "cache" "d") dir_note_fs).1 = 500%Z.
Proof.
  apply (directory_in_place_of_note sample_cwd "cache" dir_note_fs "d").
  vm_compute. reflexivity.
Defined.

Lemma create_then_delete_restores_witness :
  serve (delete_note sample_cwd "cache" "todo")
    (<[at_path ["srv"; "cache"; "todo.txt"] := File "a"]> sample_fs)
  = (sent 200 "Note deleted", sample_fs).
Proof.
  apply (create_then_delete_restores sample_cwd "cache" sample_fs _ "todo" "a").
  vm_compute. reflexivity.
Defined.

Lemma delete_then_create_is_update_witness :
  ∃ fs2,
    serve (post_write sample_cwd "cache" {| note_name := Some "x"; note := Some "again" |})
      (delete (at_path ["srv"; "cache"; "x.txt"]) sample_fs)
      = (sent 201 "Note created", fs2) ∧
    serve (put_note sample_cwd "cache" "x" (Some "again")) sample_fs
      = (sent 200 "Note updated", fs2) ∧
    serve (get_note sample_cwd "cache" "x") fs2 = (sent 200 "again", fs2).
Proof.
  apply (delete_then_create_is_update sample_cwd "cache" sample_fs).
  - exact sample_wf.
  - vm_compute. reflexivity.
  - vm_compute. reflexivity.
Defined.

Lemma update_twice_last_wins_witness :
  ∃ fs2,
    serve (put_note sample_cwd "cache" "x" (Some "second"))
      (<[at_path ["srv"; "cache"; "x.txt"] := File "first"]> sample_fs)
      = (sent 200 "Note updated", fs2) ∧
    serve (put_note sample_cwd "cache" "x" (Some "second")) sample_fs
      = (sent 200 "Note updated", fs2) ∧
    serve (get_note sample_cwd "cache" "x") fs2 = (sent 200 "second", fs2).
Proof.
  apply (update_twice_last_wins sample_cwd "cache" sample_fs _ "x" "first" "second").
  vm_compute. reflexivity.
Defined.

Lemma created_note_listed_iff_visible_witness :
  ∃ fs' notes,
    serve (post_write sample_cwd "cache" {| note_name := Some "_tmp"; note := Some "t" |})
      sample_fs = (sent 201 "Note created", fs') ∧
    serve (get_note sample_cwd "cache" "_tmp") fs' = (sent 200 "t", fs') ∧
    serve (get_notes sample_cwd "cache") fs'
      = ({| status := 200; payload := Json notes |}, fs') ∧
    ({| name := "_tmp"; text := "t" |} ∈ notes ↔
       "_tmp" ≠ "" ∧ startsWith "_tmp" dot = false ∧ startsWith "_tmp" underscore = false).
Proof.
  apply (created_note_listed_iff_visible sample_cwd "cache" sample_fs sample_cache_key).
  - exact sample_ready.
  - exact sample_wf.
  - reflexivity.
  - vm_compute. reflexivity.
Defined.

Lemma nul_name_reaches_no_file_witness :
  (∀ req_note,
     (serve (post_write sample_cwd "cache"
               {| note_name := Some nul_name; note := req_note |}) sample_fs).2 = sample_fs ∧
     status (serve (post_write sample_cwd "cache"
                      {| note_name := Some nul_name; note := req_note |}) sample_fs).1
       = 500%Z) ∧
  serve (get_note sample_cwd "cache" nul_name) sample_fs = (not_found, sample_fs) ∧
  (∀ req_body, serve (put_note sample_cwd "cache" nul_name req_body) sample_fs
               = (not_found, sample_fs)) ∧
  serve (delete_note sample_cwd "cache" nul_name) sample_fs = (not_found, sample_fs).
Proof.
  apply (nul_name_reaches_no_file sample_cwd "cache" sample_fs nul_name).
  - discriminate.
  - reflexivity.
  - reflexivity.
Defined.

Lemma cache_not_a_directory_witness :
  serve (get_notes sample_cwd "secret.txt") sample_fs
    = (sent 500 "Internal Server Error", sample_fs) ∧
  (∀ req_note,
     (serve (post_write sample_cwd "secret.txt"
               {| note_name := Some "todo"; note := req_note |}) sample_fs).2 = sample_fs ∧
     status (serve (post_write sample_cwd "secret.txt"
                      {| note_name := Some "todo"; note := req_note |}) sample_fs).1
       = 500%Z) ∧
  serve (get_note sample_cwd "secret.txt" "todo") sample_fs = (not_found, sample_fs) ∧
  (∀ req_body, serve (put_note sample_cwd "secret.txt" "todo" req_body) sample_fs
               = (not_found, sample_fs)) ∧
  serve (delete_note sample_cwd "secret.txt" "todo") sample_fs = (not_found, sample_fs) ∧
  (∀ d, sample_fs !! at_path ["srv"; "secret.txt"] = Some (File d) →
        startup sample_cwd "secret.txt" sample_fs = (Started None, sample_fs)).
Proof.
  apply (cache_not_a_directory sample_cwd "secret.txt" sample_fs
           (at_path ["srv"; "secret.txt"]) "todo").
  - vm_compute. reflexivity.
  - vm_compute. discriminate.
  - reflexivity.
Defined.

Lemma requests_on_distinct_names_commute_witness :
  (serve (route sample_cwd "cache" (POST_write {| note_name := Some "y"; note := Some "t" |}))
     (serve (route sample_cwd "cache" (DELETE_note "x")) sample_fs).2).1
    = (serve (route sample_cwd "cache"
                (POST_write {| note_name := Some "y"; note := Some "t" |})) sample_fs).1 ∧
  (serve (route sample_cwd "cache" (DELETE_note "x"))
     (serve (route sample_cwd "cache"
               (POST_write {| note_name := Some "y"; note := Some "t" |})) sample_fs).2).1
    = (serve (route sample_cwd "cache" (DELETE_note "x")) sample_fs).1 ∧
  (serve (route sample_cwd "cache" (POST_write {| note_name := Some "y"; note := Some "t" |}))
     (serve (route sample_cwd "cache" (DELETE_note "x")) sample_fs).2).2
    = (serve (route sample_cwd "cache" (DELETE_note "x"))
         (serve (route sample_cwd "cache"
                   (POST_write {| note_name := Some "y"; note := Some "t" |})) sample_fs).2).2.
Proof.
  apply (requests_on_distinct_names_commute sample_cwd "cache" sample_fs sample_cache_key
           "x" "y").
  - exact sample_ready.
  - reflexivity.
  - reflexivity.
  - discriminate.
  - reflexivity.
  - reflexivity.
Defined.

Lemma readable_note_is_listed_witness :
  ∃ notes,
    serve (get_notes sample_cwd "cache") sample_fs
      = ({| status := 200; payload := Json notes |}, sample_fs) ∧
    {| name := "x"; text := "plain" |} ∈ notes.
Proof.
  apply (readable_note_is_listed sample_cwd "cache" sample_fs sample_cache_key "x" "plain").
  - exact sample_ready.
  - exact sample_wf.
  - reflexivity.
  - discriminate.
  - reflexivity.
  - reflexivity.
  - vm_compute. reflexivity.
Defined.
